(** * ChromeVox navigation core: layout-line walker and user commands

    A shallow embedding of
    - [cvox.LayoutLineWalker] (layout_line_walker.js), and
    - the navigation commands, the user-command guard and the category
      predicates of [cvox.ChromeVoxUserCommands] (user_commands.js),
    together with the properties the specification states about them. *)

From Stdlib Require Import ZArith Bool Lia.
From stdpp Require Import base list strings gmap.
From stdpp Require Import sorting.

Local Open Scope Z_scope.

(** ** Completions of JavaScript code

    A call either returns normally, throws, or (in the model only) runs
    out of the fuel that bounds its loops. *)

Inductive JsError := TypeError.

Inductive Completion (A : Type) : Type :=
| Normal (a : A)
| Throw (e : JsError)
| OutOfFuel.
Arguments Normal {A} a.
Arguments Throw {A} e.
Arguments OutOfFuel {A}.

Definition cbind {A B} (c : Completion A) (k : A -> Completion B) : Completion B :=
  match c with
  | Normal a => k a
  | Throw e => Throw e
  | OutOfFuel => OutOfFuel
  end.

Notation "'let*' x ':=' c 'in' k" := (cbind c (fun x => k))
  (at level 10, x name, c at level 100, k at level 200).

(** ** Cursors and selections *)

Module Selection.

(** Opaque handle to a document node; [==] on nodes is handle equality. *)
Definition NodeRef := nat.

(** Modelled from the spec: [cvox.Cursor] (cursor.js) is not among the
    sources.  A cursor is a node reference plus an integer offset into
    that node. *)
Record Cursor := mkCursor { node : NodeRef; index : Z }.
Arguments mkCursor node%_nat index%_Z.

#[global] Instance Cursor_eq_dec : EqDecision Cursor.
Proof. solve_decision. Defined.

(** [equals]: the same node and the same offset. *)
Definition equals (a b : Cursor) : bool :=
  (node a =? node b)%nat && (index a =? index b).

(** Modelled from the spec: [cvox.CursorSelection] (cursor_selection.js) is
    not among the sources.  A selection is a triple of two cursors and the
    [reversed] flag.  The walker reads [sel.end] as "the directed end" and
    obtains the absolute range with [sel.clone().setReversed(false)]
    before reading [start] and [end], so the two fields are the directed
    endpoints: reversing a selection exchanges them, and the
    document-ordered pair of the spec is ([absStart], [absEnd]). *)
Record CursorSelection := mkSel {
  start : Cursor;
  end_ : Cursor;
  wasReversed_ : bool
}.

#[global] Instance CursorSelection_eq_dec : EqDecision CursorSelection.
Proof. solve_decision. Defined.

Definition isReversed (s : CursorSelection) : bool := wasReversed_ s.

(** [setReversed(reversed)]: nothing to do when the flag already has the
    value, otherwise the directed endpoints trade places.  The JavaScript
    object is updated in place; every use below rebinds the result. *)
Definition setReversed (reversed : bool) (s : CursorSelection) : CursorSelection :=
  if Bool.eqb reversed (wasReversed_ s) then s
  else {| start := end_ s; end_ := start s; wasReversed_ := reversed |}.

(** [new cvox.CursorSelection(start, end, opt_reverse)]: [start] and [end]
    become the directed endpoints of the new selection; [opt_reverse] is
    [false] when the caller leaves it out. *)
Definition newCursorSelection (a b : Cursor) (opt_reverse : bool) : CursorSelection :=
  {| start := a; end_ := b; wasReversed_ := opt_reverse |}.

Definition clone (s : CursorSelection) : CursorSelection := s.

(** Document-ordered endpoints (the spec's [start], [end]). *)
Definition absStart (s : CursorSelection) : Cursor :=
  if wasReversed_ s then end_ s else start s.
Definition absEnd (s : CursorSelection) : Cursor :=
  if wasReversed_ s then start s else end_ s.

(** [absEquals]: the same document range, disregarding [reversed]. *)
Definition absEquals (a b : CursorSelection) : bool :=
  equals (absStart a) (absStart b) && equals (absEnd a) (absEnd b).

End Selection.
Export Selection.

(** ** The walker contract

    Modelled from the spec: [cvox.AbstractWalker] and
    [cvox.StructuralLineWalker] are not among the sources.  A walker
    offers [next], [sync], [getDescription] and [getBraille]; [next] and
    [sync] return a selection or [null] ([None]) and leave their argument
    alone.  The layout-line walker uses its sub-walker only through this
    contract, so the sub-walker is a parameter of everything below. *)

Module AbstractWalker.

Record Walker (Description Braille : Type) := {
  next : CursorSelection -> option CursorSelection;
  sync : CursorSelection -> option CursorSelection;
  getDescription : CursorSelection -> CursorSelection -> list Description;
  getBraille : CursorSelection -> CursorSelection -> Braille
}.
Arguments next {_ _} _ _.
Arguments sync {_ _} _ _.
Arguments getDescription {_ _} _ _ _.
Arguments getBraille {_ _} _ _ _.

End AbstractWalker.
Abbreviation Walker := AbstractWalker.Walker.

(** ** Braille lines

    Modelled from the spec: [cvox.NavBraille] and [cvox.Spannable] are not
    among the sources.  A braille line is a text with span annotations
    that map sub-ranges back to their source, plus an optional cursor
    [startIndex, endIndex) into the text. *)

Module Braille.

Inductive SpanValue :=
| VALUE_SPAN
| NodeSpan (n : NodeRef).

#[global] Instance SpanValue_eq_dec : EqDecision SpanValue.
Proof. solve_decision. Defined.

Record Spannable := mkSpannable {
  chars : string;
  spans : list (SpanValue * Z * Z)
}.

Definition getLength (t : Spannable) : Z := Z.of_nat (String.length (chars t)).

Definition toString (t : Spannable) : string := chars t.

(** Appending a plain string leaves the spans alone. *)
Definition append (t : Spannable) (s : string) : Spannable :=
  {| chars := chars t +:+ s; spans := spans t |}.

Definition setSpan (t : Spannable) (v : SpanValue) (a b : Z) : Spannable :=
  {| chars := chars t; spans := spans t ++ [(v, a, b)] |}.

(** Start of the first span carrying [v]; [None] is [null]. *)
Definition getSpanStart (t : Spannable) (v : SpanValue) : option Z :=
  match List.find (fun sp => bool_decide (sp.1.1 = v)) (spans t) with
  | Some sp => Some sp.1.2
  | None => None
  end.

Record NavBraille := mkNavBraille {
  text : Spannable;
  startIndex : option Z;
  endIndex : option Z
}.

(** [new cvox.NavBraille({})]: no text, no cursor. *)
Definition newNavBraille : NavBraille :=
  {| text := mkSpannable "" []; startIndex := None; endIndex := None |}.

End Braille.
Export Braille.

(** ** [cvox.LayoutLineWalker] *)

Module LayoutLineWalker.

Section LayoutLineWalker.

Context {Description : Type}.

(** [this.subWalker_ = new cvox.StructuralLineWalker()]. *)
Variable subWalker_ : Walker Description NavBraille.

(** The geometry oracle: [sel.getRange().getBoundingClientRect().bottom].
    The walker only ever compares two such coordinates with [!=]. *)
Variable bottom : CursorSelection -> Z.

(** Properties of the host document read by [appendBraille_]. *)
Variable isInputTypeText : NodeRef -> bool.
Variable isHTMLTextAreaElement : NodeRef -> bool.
Variable selectionStart : NodeRef -> Z.
Variable selectionEnd : NodeRef -> Z.
Variable ITEM_SEPARATOR : string.

Definition isVisualLineBreak_ (lSel rSel : CursorSelection) : bool :=
  negb (bottom lSel =? bottom rSel).

(** The [do ... while] of [extend_], entered with [next = end_sel]: one
    turn rebinds [end] and asks the sub-walker for its successor. *)
Fixpoint extend_loop (fuel : nat) (end_sel : CursorSelection)
  : Completion CursorSelection :=
  match fuel with
  | O => OutOfFuel
  | S fuel' =>
      match AbstractWalker.next subWalker_ end_sel with
      | Some nxt =>
          if negb (isVisualLineBreak_ end_sel nxt)
          then extend_loop fuel' nxt
          else Normal end_sel
      | None => Normal end_sel
      end
  end.

Definition extend_ (fuel : nat) (start_sel : CursorSelection)
  : Completion CursorSelection :=
  let* end_sel := extend_loop fuel start_sel in
  Normal (newCursorSelection (start start_sel) (end_ end_sel)
                             (isReversed start_sel)).

Definition next (fuel : nat) (sel : CursorSelection)
  : Completion (option CursorSelection) :=
  (* Collapse selection to the directed end. *)
  let endSel := newCursorSelection (end_ sel) (end_ sel) (isReversed sel) in
  (* Sync to the line. *)
  match AbstractWalker.sync subWalker_ endSel with
  | None => Normal None
  | Some _ =>
      (* Compute the next selection. *)
      match AbstractWalker.next subWalker_ endSel with
      | None => Normal None
      | Some start0 =>
          let start1 := setReversed (isReversed sel) start0 in
          let* ext := extend_ fuel start1 in
          Normal (Some (setReversed false ext))
      end
  end.

Definition sync (fuel : nat) (sel : CursorSelection)
  : Completion (option CursorSelection) :=
  match AbstractWalker.sync subWalker_ sel with
  | None => Normal None
  | Some line =>
      (* Extend to both line breaks (in each direction). *)
      let* end_ext := extend_ fuel line in
      let line' := setReversed (negb (isReversed line)) line in
      let* start_ext := extend_ fuel line' in
      Normal (Some (newCursorSelection (end_ start_ext) (end_ end_ext)
                                       (isReversed sel)))
  end.

(** The [while] of [getDescription]; yields [descriptions], [prev] and
    [cur] as they are when the loop is left. *)
Fixpoint getDescription_loop (fuel : nat) (absSel_end : Cursor)
    (descriptions : list Description) (prev : CursorSelection)
    (cur : option CursorSelection)
  : Completion (list Description * CursorSelection * option CursorSelection) :=
  match cur with
  | Some c =>
      if negb (equals (end_ c) absSel_end) then
        match fuel with
        | O => OutOfFuel
        | S fuel' =>
            getDescription_loop fuel' absSel_end
              (descriptions ++ AbstractWalker.getDescription subWalker_ prev c)
              c (AbstractWalker.next subWalker_ c)
        end
      else Normal (descriptions, prev, cur)
  | None => Normal (descriptions, prev, cur)
  end.

Definition getDescription (fuel : nat) (prevSel sel : CursorSelection)
  : Completion (list Description) :=
  let absSel := setReversed false (clone sel) in
  let cur := newCursorSelection (start absSel) (start absSel) false in
  match AbstractWalker.sync subWalker_ cur with
  | None => Normal []
  | Some cur =>
      (* No need to accumulate descriptions. *)
      if (node (start absSel) =? node (end_ absSel))%nat then
        Normal (AbstractWalker.getDescription subWalker_ prevSel sel)
      else
        (* Walk through and collect descriptions for each line. *)
        let* st := getDescription_loop fuel (end_ absSel) [] prevSel (Some cur) in
        match st with
        | (descriptions, prev, Some cur) =>
            Normal (descriptions ++ AbstractWalker.getDescription subWalker_ prev cur)
        | (descriptions, _, None) => Normal descriptions
        end
  end.

(** [appendBraille_], up to the placement of the braille cursor, where
    the source text at hand ends. *)
Definition appendBraille_ (prevSel : CursorSelection)
    (sel : option CursorSelection) (cur : CursorSelection)
    (braille : NavBraille) : NavBraille :=
  let item := text (AbstractWalker.getBraille subWalker_ prevSel cur) in
  let valueSpanStart := getSpanStart item VALUE_SPAN in
  let text1 :=
    if 0 <? getLength (text braille)
    then append (text braille) ITEM_SEPARATOR
    else text braille in
  let spanStart := getLength text1 in
  let spanEnd := spanStart + getLength item in
  let text2 := append text1 (toString item) in
  let text3 := setSpan text2 (NodeSpan (node (start cur))) spanStart spanEnd in
  let braille3 :=
    {| text := text3; startIndex := startIndex braille;
       endIndex := endIndex braille |} in
  match sel with
  | Some sel =>
      if absEquals cur sel then
        match valueSpanStart with
        | Some v =>
            if isInputTypeText (node (start cur))
               || isHTMLTextAreaElement (node (start cur))
            then
              {| text := text3;
                 startIndex := Some (spanStart + v + selectionStart (node (start cur)));
                 endIndex := Some (spanStart + v + selectionEnd (node (start cur))) |}
            else
              {| text := text3; startIndex := Some spanStart;
                 endIndex := Some (spanStart + 1) |}
        | None =>
            {| text := text3; startIndex := Some spanStart;
               endIndex := Some (spanStart + 1) |}
        end
      else braille3
  | None => braille3
  end.

(** The [while] of [getBraille]. *)
Fixpoint getBraille_loop (fuel : nat) (layoutSel_end : Cursor)
    (absSel : CursorSelection) (braille : NavBraille)
    (prevSel : CursorSelection) (cur : option CursorSelection)
  : Completion (NavBraille * CursorSelection * option CursorSelection) :=
  match cur with
  | Some c =>
      if negb (equals (end_ c) layoutSel_end) then
        match fuel with
        | O => OutOfFuel
        | S fuel' =>
            getBraille_loop fuel' layoutSel_end absSel
              (appendBraille_ prevSel (Some absSel) c braille)
              c (AbstractWalker.next subWalker_ c)
        end
      else Normal (braille, prevSel, cur)
  | None => Normal (braille, prevSel, cur)
  end.

Definition getBraille (fuel : nat) (prevSel sel : CursorSelection)
  : Completion NavBraille :=
  let braille := newNavBraille in
  let absSel := AbstractWalker.sync subWalker_ (setReversed false (clone sel)) in
  let* synced := sync fuel sel in
  (* [this.sync(sel).setReversed(false)]: a method call on the result. *)
  let* layoutSel :=
    match synced with
    | Some l => Normal (setReversed false l)
    | None => Throw TypeError
    end in
  match absSel with
  | None => Normal braille
  | Some absSel =>
      let cur := newCursorSelection (start layoutSel) (start layoutSel) false in
      match AbstractWalker.sync subWalker_ cur with
      | None => Normal braille
      | Some cur =>
          (* Walk through and collect braille for each line. *)
          let* st := getBraille_loop fuel (end_ layoutSel) absSel braille
                                     prevSel (Some cur) in
          match st with
          | (braille, prevSel, Some cur) =>
              Normal (appendBraille_ prevSel (Some absSel) cur braille)
          | (braille, _, None) => Normal braille
          end
      end
  end.

End LayoutLineWalker.

End LayoutLineWalker.

(** ** A document of structural lines

    A synthetic sub-walker and geometry: line [i] is the node with handle
    [i], holding one addressable unit; [bottoms] gives the rendered bottom
    coordinate of every line. *)

Module StructuralLines.

Definition line (i : nat) (reversed : bool) : CursorSelection :=
  setReversed reversed (newCursorSelection (mkCursor i 0) (mkCursor i 1) false).

Definition lineNext (count : nat) (sel : CursorSelection) : option CursorSelection :=
  let i := node (end_ sel) in
  if isReversed sel then
    match i with
    | O => None
    | S j => Some (line j true)
    end
  else if (S i <? count)%nat then Some (line (S i) false) else None.

Definition lineSync (count : nat) (sel : CursorSelection) : option CursorSelection :=
  let i := node (start sel) in
  if (i <? count)%nat then Some (line i (isReversed sel)) else None.

Definition walker (count : nat) : Walker nat NavBraille :=
  {| AbstractWalker.next := lineNext count;
     AbstractWalker.sync := lineSync count;
     AbstractWalker.getDescription := fun _ cur => [node (absStart cur)];
     AbstractWalker.getBraille := fun _ _ =>
       {| text := mkSpannable "line" []; startIndex := None; endIndex := None |} |}.

Definition bottomOf (bottoms : list Z) (sel : CursorSelection) : Z :=
  default 0 (bottoms !! node (absStart sel)).

(** Three structural lines; the first two share a baseline. *)
Definition bottoms3 : list Z := [10; 10; 20].
Definition walker3 : Walker nat NavBraille := walker 3.
Definition bottom3 : CursorSelection -> Z := bottomOf bottoms3.

End StructuralLines.

(** ** Vocabulary for the layout-line properties *)

Section LayoutLineVocabulary.

Context {Description : Type}.
Variable subWalker_ : Walker Description NavBraille.
Variable bottom : CursorSelection -> Z.

(** [sameLineRun n s e]: [e] is reached from [s] by [n] calls of the
    sub-walker's [next], each result having the same [bottom] as the
    selection it was produced from. *)
Inductive sameLineRun : nat -> CursorSelection -> CursorSelection -> Prop :=
| run_stop s : sameLineRun 0 s s
| run_more n s m e :
    AbstractWalker.next subWalker_ s = Some m ->
    bottom m = bottom s ->
    sameLineRun n m e ->
    sameLineRun (S n) s e.

(** A visual line break follows [e]: the sub-walker has nothing after
    [e], or what it has lies on another baseline. *)
Definition lineBreakAfter (e : CursorSelection) : Prop :=
  AbstractWalker.next subWalker_ e = None \/
  exists d, AbstractWalker.next subWalker_ e = Some d /\ bottom d <> bottom e.

(** [extendsTo s r]: [r] runs from the start of [s] to the end of the
    last selection of the same-line run that begins at [s]. *)
Definition extendsTo (n : nat) (s r : CursorSelection) : Prop :=
  exists e, sameLineRun n s e /\ lineBreakAfter e /\
            r = newCursorSelection (start s) (end_ e) (isReversed s).

(** The directed end of [sel], as a collapsed selection. *)
Definition collapseToEnd (sel : CursorSelection) : CursorSelection :=
  newCursorSelection (end_ sel) (end_ sel) (isReversed sel).

(** [sel] is at the document boundary in its direction: the sub-walker
    has no further content beyond its directed end. *)
Definition atBoundary (sel : CursorSelection) : Prop :=
  AbstractWalker.next subWalker_ (collapseToEnd sel) = None.

(** The outcomes of [k] successive calls of [next] made by a caller that
    moves to the result of a call that succeeds and stays where it is
    after one that fails. *)
Fixpoint nextRepeatedly (fuel k : nat) (sel : CursorSelection)
  : list (Completion (option CursorSelection)) :=
  match k with
  | O => []
  | S k' =>
      let r := LayoutLineWalker.next subWalker_ bottom fuel sel in
      r :: nextRepeatedly fuel k'
             (match r with Normal (Some sel') => sel' | _ => sel end)
  end.

End LayoutLineVocabulary.

(** ** [cvox.ChromeVoxUserCommands] *)

Module UserCommands.

(** A DOM node as the commands read it.  Text nodes have neither
    [tagName] nor a [getAttribute] method; an attribute that is not set
    reads [null]. *)
Record Node := mkNode {
  tagName : option string;
  hasGetAttribute : bool;
  attributes : gmap string string;
  type_ : option string;
  checked : bool
}.

Definition getAttribute (n : Node) (name : string) : option string :=
  attributes n !! name.

(** [x == 's'] for a string-or-absent [x]. *)
Definition jsEq (x : option string) (s : string) : bool :=
  bool_decide (x = Some s).

(** [nodes[i].getAttribute && nodes[i].getAttribute('role') == r]. *)
Definition roleIs (n : Node) (r : string) : bool :=
  hasGetAttribute n && jsEq (getAttribute n "role") r.

Definition tagIs (n : Node) (t : string) : bool := jsEq (tagName n) t.
Definition typeIs (n : Node) (t : string) : bool := jsEq (type_ n) t.

Inductive Earcon :=
| BUTTON | CHECK_OFF | CHECK_ON | LISTBOX | EDITABLE_TEXT | LINK | LIST_ITEM.

Inductive Personality := PERSONALITY_ANNOTATION.

(** Functions scheduled with [setTimeout]. *)
Inductive Callback :=
| UserCommandLevelDown   (* userCommandLevel_ -= 1 *)
| NavSetFocus.           (* navigationManager.setFocus() *)

(** Calls on the collaborators, in the order they are made. *)
Inductive Event (Description Predicate : Type) :=
| NavNext (arg : bool)
| NavPrevious (arg : bool)
| NavFindNext (p : Predicate)
| NavFindPrevious (p : Predicate)
| NavSyncToSelection
| NavSetFocusCall
| ScrollToSelection
| TtsSpeak (msg : string) (queueMode : Z) (personality : Personality)
| DescriptionSpeak (d : Description) (queueMode : Z)
| PlayEarcon (e : Earcon).
Arguments NavNext {_ _} arg.
Arguments NavPrevious {_ _} arg.
Arguments NavFindNext {_ _} p.
Arguments NavFindPrevious {_ _} p.
Arguments NavSyncToSelection {_ _}.
Arguments NavSetFocusCall {_ _}.
Arguments ScrollToSelection {_ _}.
Arguments TtsSpeak {_ _} msg queueMode personality.
Arguments DescriptionSpeak {_ _} d queueMode.
Arguments PlayEarcon {_ _} e.

(** [cvox.ChromeVox.navigationManager], through the calls the commands
    make on it; [NavState] is whatever the manager keeps. *)
Record NavigationManager (NavState Description Predicate : Type) := {
  nm_next : bool -> NavState -> bool * NavState;
  nm_previous : bool -> NavState -> bool * NavState;
  nm_findNext : Predicate -> NavState -> bool * NavState;
  nm_findPrevious : Predicate -> NavState -> bool * NavState;
  nm_inTableMode : NavState -> bool;
  nm_checkCellBoundaries : NavState -> bool;
  nm_getCurrentDescription : NavState -> list Description;
  nm_getChangedAncestors : NavState -> list Node;
  nm_syncToSelection : NavState -> NavState;
  nm_setFocus : NavState -> NavState
}.
Arguments nm_next {_ _ _} _ _ _.
Arguments nm_previous {_ _ _} _ _ _.
Arguments nm_findNext {_ _ _} _ _ _.
Arguments nm_findPrevious {_ _ _} _ _ _.
Arguments nm_inTableMode {_ _ _} _ _.
Arguments nm_checkCellBoundaries {_ _ _} _ _.
Arguments nm_getCurrentDescription {_ _ _} _ _.
Arguments nm_getChangedAncestors {_ _ _} _ _.
Arguments nm_syncToSelection {_ _ _} _ _.
Arguments nm_setFocus {_ _ _} _ _.

(** Everything a command can read or change. *)
Record World (NavState Description Predicate : Type) := mkWorld {
  nav : NavState;
  userCommandLevel_ : Z;
  clock : Z;
  timers : list (Z * Callback);
  trace : list (Event Description Predicate)
}.
Arguments mkWorld {_ _ _} _ _ _ _ _.
Arguments nav {_ _ _} _.
Arguments userCommandLevel_ {_ _ _} _.
Arguments clock {_ _ _} _.
Arguments timers {_ _ _} _.
Arguments trace {_ _ _} _.

Section Commands.

Context {NavState Description Predicate : Type}.
Variable navigationManager : NavigationManager NavState Description Predicate.

(** [cvox.AriaUtil] and [cvox.DomUtil] helpers. *)
Variable isControlWidget : Node -> bool.
Variable isInputTypeText : Node -> bool.

#[local] Abbreviation World := (World NavState Description Predicate).
#[local] Abbreviation Event := (Event Description Predicate).

Definition setNav (s : NavState) (w : World) : World :=
  mkWorld s (userCommandLevel_ w) (clock w) (timers w) (trace w).

Definition setLevel (l : Z) (w : World) : World :=
  mkWorld (nav w) l (clock w) (timers w) (trace w).

Definition emit (e : Event) (w : World) : World :=
  mkWorld (nav w) (userCommandLevel_ w) (clock w) (timers w) (trace w ++ [e]).

(** [setTimeout(callback, delay)]. *)
Definition setTimeout (cb : Callback) (delay : Z) (w : World) : World :=
  mkWorld (nav w) (userCommandLevel_ w) (clock w)
          (timers w ++ [(clock w + delay, cb)]) (trace w).

(** A call on the navigation manager that reports success. *)
Definition navCall (e : Event) (f : NavState -> bool * NavState) (w : World)
  : bool * World :=
  let r := f (nav w) in
  (r.1, emit e (setNav r.2 w)).

Definition speak (msg : string) (queueMode : Z) (p : Personality) (w : World)
  : World :=
  emit (TtsSpeak msg queueMode p) w.

(** *** The user-command guard *)

Definition markInUserCommand_ (w : World) : World :=
  setTimeout UserCommandLevelDown 100
    (setLevel (userCommandLevel_ w + 1) w).

Definition isInUserCommand (w : World) : bool :=
  0 <? userCommandLevel_ w.

(** *** The host event loop

    A timer runs when its delay has elapsed; timers due at the same
    time run in the order they were set. *)

Definition runCallback (cb : Callback) (w : World) : World :=
  match cb with
  | UserCommandLevelDown => setLevel (userCommandLevel_ w - 1) w
  | NavSetFocus =>
      emit NavSetFocusCall (setNav (nm_setFocus navigationManager (nav w)) w)
  end.

(** The timer to run first, and the queue without it. *)
Fixpoint earliest (q : list (Z * Callback))
  : option ((Z * Callback) * list (Z * Callback)) :=
  match q with
  | [] => None
  | t :: q' =>
      match earliest q' with
      | Some (u, rest) =>
          if t.1 <=? u.1 then Some (t, q') else Some (u, t :: rest)
      | None => Some (t, q')
      end
  end.

Fixpoint runTimers (fuel : nat) (until : Z) (w : World) : World :=
  match fuel with
  | O => w
  | S fuel' =>
      match earliest (timers w) with
      | Some ((due, cb), rest) =>
          if due <=? until then
            runTimers fuel' until
              (runCallback cb
                 (mkWorld (nav w) (userCommandLevel_ w) due rest (trace w)))
          else w
      | None => w
      end
  end.

(** Let time pass until [t].  No callback here sets a timer, so the queue
    length bounds the number of callbacks run. *)
Definition advanceTo (t : Z) (w : World) : World :=
  let w' := runTimers (length (timers w)) t w in
  mkWorld (nav w') (userCommandLevel_ w') t (timers w') (trace w').

(** *** Finishing a navigation command *)

(** The earcons [playEarcons] queues for one changed ancestor.
    [isControlWidget] holds of elements only, so [getAttribute] exists
    where the first branch calls it. *)
Definition earconsFor (n : Node) : list Earcon :=
  (* Check if this is an ARIA control; if it is, ARIA role takes precedence. *)
  if isControlWidget n then
    let role := getAttribute n "role" in
    if jsEq role "button" then [BUTTON]
    else if jsEq role "checkbox" || jsEq role "radio"
            || jsEq role "menuitemcheckbox" || jsEq role "menuitemradio" then
      match getAttribute n "aria-checked" with
      | None | Some "" => [CHECK_OFF]
      | Some _ => [CHECK_ON]
      end
    else if jsEq role "combobox" then [LISTBOX]
    else if jsEq role "textbox" then [EDITABLE_TEXT]
    else []
  else
    (* Not an ARIA control; use the element's tag. *)
    if tagIs n "BUTTON" then [BUTTON]
    else if tagIs n "A" then [LINK]
    else if tagIs n "LI" then [LIST_ITEM]
    else if tagIs n "SELECT" then [LISTBOX]
    else if tagIs n "TEXTAREA" then [EDITABLE_TEXT]
    else if tagIs n "INPUT" then
      if typeIs n "button" || typeIs n "submit" || typeIs n "reset" then [BUTTON]
      else if typeIs n "checkbox" || typeIs n "radio" then
        if checked n then [CHECK_ON] else [CHECK_OFF]
      else if isInputTypeText n then [EDITABLE_TEXT]
      else []
    else [].

Definition playEarcons (w : World) : World :=
  let ancestors := nm_getChangedAncestors navigationManager (nav w) in
  let earcons := concat (map earconsFor ancestors) in
  fold_left (fun w e => emit (PlayEarcon e) w) earcons w.

(** The [for] loop that speaks the descriptions: the first with the
    current queue mode, the others queued. *)
Fixpoint speakDescriptions (ds : list Description) (queueMode : Z) (w : World)
  : World :=
  match ds with
  | [] => w
  | d :: ds' => speakDescriptions ds' 1 (emit (DescriptionSpeak d queueMode) w)
  end.

Definition finishNavCommand (messagePrefixStr : string) (w : World) : World :=
  let descriptionArray := nm_getCurrentDescription navigationManager (nav w) in
  let w := setTimeout NavSetFocus 0 w in
  let w := emit ScrollToSelection w in
  let w := emit NavSyncToSelection
             (setNav (nm_syncToSelection navigationManager (nav w)) w) in
  let queueMode := 0 in
  let '(w, queueMode) :=
    if negb (String.eqb messagePrefixStr "")
    then (speak messagePrefixStr queueMode PERSONALITY_ANNOTATION w, 1)
    else (w, queueMode) in
  let w := speakDescriptions descriptionArray queueMode w in
  playEarcons w.

(** *** [commands['forward']] and [commands['backward']]

    The result is the returned boolean and the world the command leaves. *)

Definition forward (w : World) : bool * World :=
  let w := markInUserCommand_ w in
  let '(navSucceeded, w) := navCall (NavNext true) (nm_next navigationManager true) w in
  if nm_inTableMode navigationManager (nav w) then
    if negb (nm_checkCellBoundaries navigationManager (nav w)) then
      let '(navSucceeded, w) :=
        navCall (NavPrevious true) (nm_previous navigationManager true) w in
      let w := finishNavCommand "End of cell. " w in
      (negb navSucceeded, w)
    else
      let w := finishNavCommand "" w in
      (negb navSucceeded, w)
  else
    let w := finishNavCommand "" w in
    (negb navSucceeded, w).

Definition backward (w : World) : bool * World :=
  let w := markInUserCommand_ w in
  let '(navSucceeded, w) :=
    navCall (NavPrevious true) (nm_previous navigationManager true) w in
  if nm_inTableMode navigationManager (nav w) then
    if negb (nm_checkCellBoundaries navigationManager (nav w)) then
      let '(navSucceeded, w) :=
        navCall (NavNext true) (nm_next navigationManager true) w in
      let w := finishNavCommand "End of cell. " w in
      (negb navSucceeded, w)
    else
      let w := finishNavCommand "" w in
      (negb navSucceeded, w)
  else
    let w := finishNavCommand "" w in
    (negb navSucceeded, w).

(** *** Searching by predicate *)

Definition findNextAndSpeak_ (predicate : Predicate) (errorStr : string)
    (w : World) : World :=
  let w := markInUserCommand_ w in
  let '(found, w) :=
    navCall (NavFindNext predicate) (nm_findNext navigationManager predicate) w in
  if negb found then speak errorStr 0 PERSONALITY_ANNOTATION w
  else
    (* Do a previous and then forward here to ensure that speaking is
       consistent with what would have happened if the user just
       navigated there. *)
    let '(_, w) :=
      navCall (NavPrevious true) (nm_previous navigationManager true) w in
    (forward w).2.

Definition findPreviousAndSpeak_ (predicate : Predicate) (errorStr : string)
    (w : World) : World :=
  let w := markInUserCommand_ w in
  let '(found, w) :=
    navCall (NavFindPrevious predicate)
            (nm_findPrevious navigationManager predicate) w in
  if negb found then speak errorStr 0 PERSONALITY_ANNOTATION w
  else
    let '(_, w) :=
      navCall (NavPrevious true) (nm_previous navigationManager true) w in
    (forward w).2.

End Commands.

(** *** Predicates

    Functions that take the array of ancestor nodes that have changed and
    return the node of a certain category, or [null]. *)

Section Predicates.

(** [cvox.AriaUtil.isLandmark] and [cvox.DomUtil.isInputTypeText]. *)
Variable isLandmark : Node -> bool.
Variable isInputTypeText : Node -> bool.

(** The loop shared by the general predicates:
    [for (var i = 0; i < nodes.length; i++) { if (test(nodes[i])) return nodes[i]; } return null;] *)
Fixpoint scanForward (test : Node -> bool) (nodes : list Node) : option Node :=
  match nodes with
  | [] => None
  | n :: rest => if test n then Some n else scanForward test rest
  end.

(** The [while (i--)] loop of [containsTagName_], entered with [i]. *)
Fixpoint containsTagName_from (arr : list Node) (tagName : string) (i : nat)
  : option Node :=
  match i with
  | O => None
  | S i' =>
      match arr !! i' with
      | Some n =>
          if tagIs n tagName then Some n
          else containsTagName_from arr tagName i'
      | None => None   (* not reached: [i' < arr.length] *)
      end
  end.

Definition containsTagName_ (arr : list Node) (tagName : string) : option Node :=
  containsTagName_from arr tagName (length arr).

Definition isCheckbox (n : Node) : bool :=
  roleIs n "checkbox" || (tagIs n "INPUT" && typeIs n "checkbox").
Definition checkboxPredicate_ (nodes : list Node) : option Node :=
  scanForward isCheckbox nodes.

Definition isRadio (n : Node) : bool :=
  roleIs n "radio" || (tagIs n "INPUT" && typeIs n "radio").
Definition radioPredicate_ (nodes : list Node) : option Node :=
  scanForward isRadio nodes.

Definition isSlider (n : Node) : bool :=
  roleIs n "slider" || (tagIs n "INPUT" && typeIs n "range").
Definition sliderPredicate_ (nodes : list Node) : option Node :=
  scanForward isSlider nodes.

Definition isGraphic (n : Node) : bool :=
  tagIs n "IMG" || (tagIs n "INPUT" && typeIs n "img").
Definition graphicPredicate_ (nodes : list Node) : option Node :=
  scanForward isGraphic nodes.

Definition isButton (n : Node) : bool :=
  roleIs n "button" || tagIs n "BUTTON"
  || (tagIs n "INPUT" && typeIs n "submit")
  || (tagIs n "INPUT" && typeIs n "button")
  || (tagIs n "INPUT" && typeIs n "reset").
Definition buttonPredicate_ (nodes : list Node) : option Node :=
  scanForward isButton nodes.

Definition isComboBox (n : Node) : bool :=
  roleIs n "combobox" || tagIs n "SELECT".
Definition comboBoxPredicate_ (nodes : list Node) : option Node :=
  scanForward isComboBox nodes.

Definition isEditText (n : Node) : bool :=
  roleIs n "textbox" || tagIs n "TEXTAREA"
  || (tagIs n "INPUT" && isInputTypeText n).
Definition editTextPredicate_ (nodes : list Node) : option Node :=
  scanForward isEditText nodes.

(** The role test, then the [switch] on the tag. *)
Definition isHeading (n : Node) : bool :=
  roleIs n "heading"
  || tagIs n "H1" || tagIs n "H2" || tagIs n "H3"
  || tagIs n "H4" || tagIs n "H5" || tagIs n "H6".
Definition headingPredicate_ (nodes : list Node) : option Node :=
  scanForward isHeading nodes.

Definition heading1Predicate_ (nodes : list Node) : option Node :=
  containsTagName_ nodes "H1".
Definition heading2Predicate_ (nodes : list Node) : option Node :=
  containsTagName_ nodes "H2".
Definition heading3Predicate_ (nodes : list Node) : option Node :=
  containsTagName_ nodes "H3".
Definition heading4Predicate_ (nodes : list Node) : option Node :=
  containsTagName_ nodes "H4".
Definition heading5Predicate_ (nodes : list Node) : option Node :=
  containsTagName_ nodes "H5".
Definition heading6Predicate_ (nodes : list Node) : option Node :=
  containsTagName_ nodes "H6".

Definition isLink (n : Node) : bool :=
  roleIs n "link" || tagIs n "A".
Definition linkPredicate_ (nodes : list Node) : option Node :=
  scanForward isLink nodes.

(** [linkPredicate_(nodes) == null]. *)
Definition notLinkPredicate_ (nodes : list Node) : bool :=
  match linkPredicate_ nodes with
  | None => true
  | Some _ => false
  end.

Definition tablePredicate_ (nodes : list Node) : option Node :=
  containsTagName_ nodes "TABLE".

Definition isList (n : Node) : bool :=
  roleIs n "list" || tagIs n "UL" || tagIs n "OL".
Definition listPredicate_ (nodes : list Node) : option Node :=
  scanForward isList nodes.

Definition isListItem (n : Node) : bool :=
  roleIs n "listitem" || tagIs n "LI".
Definition listItemPredicate_ (nodes : list Node) : option Node :=
  scanForward isListItem nodes.

Definition blockquotePredicate_ (nodes : list Node) : option Node :=
  containsTagName_ nodes "BLOCKQUOTE".

(** [role] starts as the empty string and is read from the node when it
    has [getAttribute]. *)
Definition isFormField (n : Node) : bool :=
  let role := if hasGetAttribute n then getAttribute n "role" else Some "" in
  jsEq role "button" || jsEq role "checkbox" || jsEq role "combobox"
  || jsEq role "radio" || jsEq role "slider" || jsEq role "spinbutton"
  || jsEq role "textbox"
  || tagIs n "INPUT" || tagIs n "SELECT" || tagIs n "BUTTON".
Definition formFieldPredicate_ (nodes : list Node) : option Node :=
  scanForward isFormField nodes.

Definition isJump (n : Node) : bool :=
  isLandmark n
  || roleIs n "heading"
  || tagIs n "H1" || tagIs n "H2" || tagIs n "H3"
  || tagIs n "H4" || tagIs n "H5" || tagIs n "H6".
Definition jumpPredicate_ (nodes : list Node) : option Node :=
  scanForward isJump nodes.

Definition landmarkPredicate_ (nodes : list Node) : option Node :=
  scanForward isLandmark nodes.

End Predicates.

(** *** Scan orders *)

(** [r] is the element of least index that satisfies [test], or [None]
    when no element does. *)
Definition firstMatching (test : Node -> bool) (nodes : list Node)
    (r : option Node) : Prop :=
  match r with
  | Some n =>
      exists i : nat, nodes !! i = Some n /\ test n = true /\
        forall (j : nat) (m : Node), (j < i)%nat -> nodes !! j = Some m -> test m = false
  | None => forall (j : nat) (m : Node), nodes !! j = Some m -> test m = false
  end.

(** [r] is the element of greatest index that satisfies [test], or [None]
    when no element does. *)
Definition lastMatching (test : Node -> bool) (nodes : list Node)
    (r : option Node) : Prop :=
  match r with
  | Some n =>
      exists i : nat, nodes !! i = Some n /\ test n = true /\
        forall (j : nat) (m : Node), (i < j)%nat -> nodes !! j = Some m -> test m = false
  | None => forall (j : nat) (m : Node), nodes !! j = Some m -> test m = false
  end.

(** *** Sample nodes *)

Definition element (tag : string) (attrs : list (string * string)) : Node :=
  mkNode (Some tag) true (list_to_map attrs) None false.

Definition textNode : Node := mkNode None false ∅ None false.

(** Two links around a heading and a text node. *)
Definition sampleDelta : list Node :=
  [element "A" [("id", "first")]; element "H1" []; textNode;
   element "A" [("id", "second")]].

(** *** What a finished command is heard to say

    The prefix, when there is one, is spoken first and flushes the queue;
    the descriptions follow, queued behind whatever came first. *)
Definition spoken {Description Predicate : Type} (messagePrefixStr : string)
    (ds : list Description) : list (Event Description Predicate) :=
  if negb (String.eqb messagePrefixStr "")
  then TtsSpeak messagePrefixStr 0 PERSONALITY_ANNOTATION
       :: map (fun d => DescriptionSpeak d 1) ds
  else match ds with
       | [] => []
       | d :: ds' => DescriptionSpeak d 0
                     :: map (fun d => DescriptionSpeak d 1) ds'
       end.

End UserCommands.

(** ** A navigation manager over a row of positions

    A synthetic manager: the document is a row of [size] positions, a
    move steps to the neighbouring position, a search looks for the
    nearest position satisfying the predicate, and the current table cell
    is the range [cellFirst .. cellLast]. *)

Module LinearDocument.

Import UserCommands.

Record State := mkState {
  position : nat;
  size : nat;
  tableMode : bool;
  cellFirst : nat;
  cellLast : nat
}.

Definition moveTo (p : nat) (s : State) : State :=
  mkState p (size s) (tableMode s) (cellFirst s) (cellLast s).

Definition stepNext (s : State) : bool * State :=
  if (S (position s) <? size s)%nat then (true, moveTo (S (position s)) s)
  else (false, s).

Definition stepPrevious (s : State) : bool * State :=
  match position s with
  | O => (false, s)
  | S p => (true, moveTo p s)
  end.

(** The first of the [count] positions from [from] upward that satisfies [p]. *)
Fixpoint searchUp (p : nat -> bool) (from count : nat) : option nat :=
  match count with
  | O => None
  | S count' => if p from then Some from else searchUp p (S from) count'
  end.

(** The first position below [from], going downward, that satisfies [p]. *)
Fixpoint searchDown (p : nat -> bool) (from : nat) : option nat :=
  match from with
  | O => None
  | S from' => if p from' then Some from' else searchDown p from'
  end.

Definition searchNext (p : nat -> bool) (s : State) : bool * State :=
  match searchUp p (S (position s)) (size s - S (position s)) with
  | Some q => (true, moveTo q s)
  | None => (false, s)
  end.

Definition searchPrevious (p : nat -> bool) (s : State) : bool * State :=
  match searchDown p (position s) with
  | Some q => (true, moveTo q s)
  | None => (false, s)
  end.

Definition insideCell (s : State) : bool :=
  (cellFirst s <=? position s)%nat && (position s <=? cellLast s)%nat.

Definition manager : NavigationManager State nat (nat -> bool) :=
  {| nm_next := fun _ => stepNext;
     nm_previous := fun _ => stepPrevious;
     nm_findNext := searchNext;
     nm_findPrevious := searchPrevious;
     nm_inTableMode := tableMode;
     nm_checkCellBoundaries := insideCell;
     nm_getCurrentDescription := fun s => [position s];
     nm_getChangedAncestors := fun _ => [];
     nm_syncToSelection := fun s => s;
     nm_setFocus := fun s => s |}.

(** A world with nothing pending, at time 0. *)
Definition idle (s : State) : World State nat (nat -> bool) :=
  mkWorld s 0 0 [] [].

End LinearDocument.

(** ** Vocabulary for walks over a layout line *)

Section LayoutLineWalks.

Context {Description : Type}.
Variable subWalker_ : Walker Description NavBraille.

(** [walk target c chain]: [chain] lists the selections the loops of
    [getDescription] and [getBraille] visit when they start at [c]: each
    is the sub-walker's [next] of the one before, and the walk ends on
    the first selection whose end is [target], or where the sub-walker
    has nothing more. *)
Inductive walk (target : Cursor) : CursorSelection -> list CursorSelection -> Prop :=
| walk_arrived c :
    equals (end_ c) target = true -> walk target c [c]
| walk_exhausted c :
    equals (end_ c) target = false ->
    AbstractWalker.next subWalker_ c = None ->
    walk target c [c]
| walk_more c n rest :
    equals (end_ c) target = false ->
    AbstractWalker.next subWalker_ c = Some n ->
    walk target n rest ->
    walk target c (c :: rest).

(** The sub-walker's descriptions of the selections of [chain], each
    against the selection before it, [prev] standing before the first. *)
Fixpoint describeAll (prev : CursorSelection) (chain : list CursorSelection)
  : list Description :=
  match chain with
  | [] => []
  | c :: rest =>
      AbstractWalker.getDescription subWalker_ prev c ++ describeAll c rest
  end.

End LayoutLineWalks.

(** Every span of [t] is the span of a node and lies inside the text. *)
Definition spansWithinText (t : Spannable) : Prop :=
  Forall (fun sp : SpanValue * Z * Z =>
            (exists n, sp.1.1 = NodeSpan n)
            /\ 0 <= sp.1.2 /\ sp.1.2 <= sp.2 /\ sp.2 <= getLength t)
         (spans t).

(** What [appendBraille_] keeps true of a braille line: its spans are
    node spans inside the text, and its cursor has both ends or none. *)
Definition wellFormedLine (b : NavBraille) : Prop :=
  spansWithinText (text b)
  /\ (startIndex b = None <-> endIndex b = None).

(** ** Vocabulary for the speech queue and the guard *)

Module GuardVocabulary.

Import UserCommands.


Definition isLevelDown (cb : Callback) : bool :=
  match cb with
  | UserCommandLevelDown => true
  | NavSetFocus => false
  end.

(** How many decrements of the guard are still waiting in the queue. *)
Fixpoint pendingLevelDowns (q : list (Z * Callback)) : Z :=
  match q with
  | [] => 0
  | t :: q' => (if isLevelDown t.2 then 1 else 0) + pendingLevelDowns q'
  end.

(** The level the guard comes back to once the waiting decrements have
    run. *)
Definition settledLevel {NavState Description Predicate : Type}
    (w : World NavState Description Predicate) : Z :=
  userCommandLevel_ w - pendingLevelDowns (timers w).

End GuardVocabulary.

(** ** Table, granularity and position commands

    More of [cvox.ChromeVoxUserCommands.commands].  The calls they make on
    the navigation manager beyond those of [NavigationManager] are further
    parameters; such a call shows in the manager's state, the trace keeps
    what is said and done to the other collaborators.  A command that
    returns nothing returns [None]. *)

Module TableCommands.

Import UserCommands.

Section TableCommands.

Context {NavState Description Predicate : Type}.
Variable navigationManager : NavigationManager NavState Description Predicate.
Variable isControlWidget : Node -> bool.
Variable isInputTypeText : Node -> bool.

(** [enterTable()], [previousRow()], ..., [goToColLastCell()]: each
    reports whether it succeeded.  [exitTable()], [up()] and [down()]
    return nothing the commands use. *)
Variable nm_enterTable : NavState -> bool * NavState.
Variable nm_exitTable : NavState -> NavState.
Variable nm_previousRow : NavState -> bool * NavState.
Variable nm_nextRow : NavState -> bool * NavState.
Variable nm_previousCol : NavState -> bool * NavState.
Variable nm_nextCol : NavState -> bool * NavState.
Variable nm_goToFirstCell : NavState -> bool * NavState.
Variable nm_goToLastCell : NavState -> bool * NavState.
Variable nm_goToRowFirstCell : NavState -> bool * NavState.
Variable nm_goToRowLastCell : NavState -> bool * NavState.
Variable nm_goToColFirstCell : NavState -> bool * NavState.
Variable nm_goToColLastCell : NavState -> bool * NavState.
Variable nm_up : NavState -> NavState.
Variable nm_down : NavState -> NavState.
Variable nm_getStrategy : NavState -> string.
Variable nm_getGranularity : NavState -> string.

#[local] Abbreviation World := (World NavState Description Predicate).
#[local] Abbreviation finishNavCommand :=
  (finishNavCommand navigationManager isControlWidget isInputTypeText).

(** A call on the manager that reports success; the world after it and
    the report. *)
Definition call (f : NavState -> bool * NavState) (w : World) : bool * World :=
  let r := f (nav w) in (r.1, setNav r.2 w).

Definition previousGranularity (w : World) : option bool * World :=
  let w := setNav (nm_up (nav w)) w in
  let strategy := nm_getStrategy (nav w) in
  let strategy :=
    if String.eqb strategy "SELECTION" then nm_getGranularity (nav w)
    else strategy in
  (Some false, finishNavCommand (strategy +:+ " ") w).

Definition nextGranularity (w : World) : option bool * World :=
  let w := setNav (nm_down (nav w)) w in
  let strategy := nm_getStrategy (nav w) in
  let strategy :=
    if String.eqb strategy "SELECTION" then nm_getGranularity (nav w)
    else strategy in
  (Some false, finishNavCommand (strategy +:+ " ") w).

Definition speakCurrentPosition (w : World) : option bool * World :=
  (Some false, finishNavCommand "" w).

Definition nop (w : World) : option bool * World := (Some false, w).

Definition enterTable (w : World) : option bool * World :=
  let '(entered, w) := call nm_enterTable w in
  if entered then (None, finishNavCommand "Inside table " w)
  else (None, speak "No table found." 0 PERSONALITY_ANNOTATION w).

Definition exitTable (w : World) : option bool * World :=
  let w := setNav (nm_exitTable (nav w)) w in
  (None, finishNavCommand "Leaving table. " w).

Definition previousRow (w : World) : option bool * World :=
  if negb (nm_inTableMode navigationManager (nav w)) then
    (None, speak "Not inside table." 0 PERSONALITY_ANNOTATION w)
  else
    let '(moved, w) := call nm_previousRow w in
    if moved then (None, finishNavCommand "" w)
    else (None, speak "No cell above." 0 PERSONALITY_ANNOTATION w).

Definition nextRow (w : World) : option bool * World :=
  if negb (nm_inTableMode navigationManager (nav w)) then
    (None, speak "Not inside table." 0 PERSONALITY_ANNOTATION w)
  else
    let '(moved, w) := call nm_nextRow w in
    if moved then (None, finishNavCommand "" w)
    else (None, speak "No cell below." 0 PERSONALITY_ANNOTATION w).

Definition previousCol (w : World) : option bool * World :=
  if negb (nm_inTableMode navigationManager (nav w)) then
    (None, speak "Not inside table." 0 PERSONALITY_ANNOTATION w)
  else
    let '(moved, w) := call nm_previousCol w in
    if moved then (None, finishNavCommand "" w)
    else (None, speak "No cell on left." 0 PERSONALITY_ANNOTATION w).

Definition nextCol (w : World) : option bool * World :=
  if negb (nm_inTableMode navigationManager (nav w)) then
    (None, speak "Not inside table." 0 PERSONALITY_ANNOTATION w)
  else
    let '(moved, w) := call nm_nextCol w in
    if moved then (None, finishNavCommand "" w)
    else (None, speak "No cell on right." 0 PERSONALITY_ANNOTATION w).

Definition skipToBeginning (w : World) : option bool * World :=
  let '(moved, w) := call nm_goToFirstCell w in
  if moved then (None, finishNavCommand "" w)
  else (None, speak "Not inside table." 0 PERSONALITY_ANNOTATION w).

Definition skipToEnd (w : World) : option bool * World :=
  let '(moved, w) := call nm_goToLastCell w in
  if moved then (None, finishNavCommand "" w)
  else (None, speak "Not inside table." 0 PERSONALITY_ANNOTATION w).

Definition skipToRowBeginning (w : World) : option bool * World :=
  let '(moved, w) := call nm_goToRowFirstCell w in
  if moved then (None, finishNavCommand "" w)
  else (None, speak "Not inside table." 0 PERSONALITY_ANNOTATION w).

Definition skipToRowEnd (w : World) : option bool * World :=
  let '(moved, w) := call nm_goToRowLastCell w in
  if moved then (None, finishNavCommand "" w)
  else (None, speak "Not inside table." 0 PERSONALITY_ANNOTATION w).

Definition skipToColBeginning (w : World) : option bool * World :=
  let '(moved, w) := call nm_goToColFirstCell w in
  if moved then (None, finishNavCommand "" w)
  else (None, speak "Not inside table." 0 PERSONALITY_ANNOTATION w).

Definition skipToColEnd (w : World) : option bool * World :=
  let '(moved, w) := call nm_goToColLastCell w in
  if moved then (None, finishNavCommand "" w)
  else (None, speak "Not inside table." 0 PERSONALITY_ANNOTATION w).

(** The commands above, by the name they are bound to. *)
Definition unguardedCommands : list (string * (World -> option bool * World)) :=
  [("previousGranularity", previousGranularity);
   ("nextGranularity", nextGranularity);
   ("speakCurrentPosition", speakCurrentPosition);
   ("nop", nop);
   ("enterTable", enterTable);
   ("exitTable", exitTable);
   ("previousRow", previousRow);
   ("nextRow", nextRow);
   ("previousCol", previousCol);
   ("nextCol", nextCol);
   ("skipToBeginning", skipToBeginning);
   ("skipToEnd", skipToEnd);
   ("skipToRowBeginning", skipToRowBeginning);
   ("skipToRowEnd", skipToRowEnd);
   ("skipToColBeginning", skipToColBeginning);
   ("skipToColEnd", skipToColEnd)].

End TableCommands.

End TableCommands.

(** ** A three-by-three table over the row of positions

    A synthetic table mode for [LinearDocument]: the nine cells are the
    positions 0..8, row by row. *)

Module GridDocument.

Import LinearDocument.

Definition enter (s : State) : bool * State :=
  if (position s <? 9)%nat
  then (true, mkState (position s) (size s) true (position s) (position s))
  else (false, s).

Definition leave (s : State) : State :=
  mkState (position s) (size s) false (cellFirst s) (cellLast s).

Definition toCell (p : nat) (s : State) : State :=
  mkState p (size s) (tableMode s) p p.

Definition rowUp (s : State) : bool * State :=
  if (3 <=? position s)%nat then (true, toCell (position s - 3) s) else (false, s).

Definition rowDown (s : State) : bool * State :=
  if (position s <? 6)%nat then (true, toCell (position s + 3) s) else (false, s).

Definition colLeft (s : State) : bool * State :=
  if (0 <? position s mod 3)%nat then (true, toCell (position s - 1) s)
  else (false, s).

Definition colRight (s : State) : bool * State :=
  if (position s mod 3 <? 2)%nat then (true, toCell (position s + 1) s)
  else (false, s).

End GridDocument.

(** ** Calls that can throw

    A call into code that is not modelled here returns or throws.  What
    it throws is an error of the engine or a value of the callee's own,
    named by a handle; the state it changed before throwing stays
    changed. *)

Inductive Exception :=
| Engine (e : JsError)
| Thrown (handle : nat).

Inductive Outcome (A : Type) : Type :=
| Returned (a : A)
| Raised (e : Exception).
Arguments Returned {A} a.
Arguments Raised {A} e.

(** ** [cvox.Interframe] *)

Module Interframe.

(** The values that travel in a message.  A number is integer valued. *)
Inductive JsValue :=
| VUndefined
| VNull
| VBool (b : bool)
| VNumber (z : Z)
| VString (s : string).

#[global] Instance JsValue_eq_dec : EqDecision JsValue.
Proof. solve_decision. Defined.

(** A message is a JavaScript object used as a map from names to values. *)
Abbreviation Message := (gmap string JsValue).

(** [message[key]]: a missing property reads [undefined]. *)
Definition prop (m : Message) (key : string) : JsValue :=
  default VUndefined (m !! key).

Definition WindowRef := nat.

(** What [cvox.ChromeVoxJSON.parse] returns: a primitive value ([null]
    among them) or an object. *)
Inductive Parsed :=
| PValue (v : JsValue)
| PObject (m : Message).

(** [message[key]] for the two keys the listener reads, ['command'] and
    ['id']: reading a property of [null] throws, and no primitive has a
    property of either name. *)
Definition read (message : Parsed) (key : string) : Outcome JsValue :=
  match message with
  | PObject m => Returned (prop m key)
  | PValue VNull | PValue VUndefined => Raised (Engine TypeError)
  | PValue _ => Returned VUndefined
  end.

(** A registered listener, by its handle; calling it is recorded. *)
Definition Listener := nat.

Definition IF_MSG_PREFIX : string := "cvox.INTERFRAME:".
Definition SET_ID : string := "cvox.INTERFRAME_SET_ID".

(** The [cvox.Interframe] state of one window.  [listeners] holds whatever
    was pushed; an entry that is not a function is falsy, [None]. *)
Record Frame := mkFrame {
  id : JsValue;
  listeners : list (option Listener);
  delivered : list (Listener * Parsed)
}.

(** What a sending function does to the world outside. *)
Inductive Effect :=
| PostMessage (target : WindowRef) (data : string)
| AppendScript (innerHTML : string)
| RemoveScriptAfter (delay : Z)
| SetLocationHref (href : string).

(** A window: itself and [window.parent] ([None] when it cannot be read). *)
Record Window := mkWindow {
  self : WindowRef;
  parent : option WindowRef
}.

(** An [iframe] element of the document. *)
Record IFrame := mkIFrame {
  contentWindow : option WindowRef;
  idAttribute : option string;     (* [hasAttribute('id')] and [iframe.id] *)
  foundById : bool;                (* [document.getElementById(iframe.id) == iframe] *)
  className : string
}.

(** [s.substr(n)]: the rest of [s] from position [n]. *)
Definition substr (n : nat) (s : string) : string :=
  String.substring n (String.length s - n) s.

(** [s.indexOf(t)]: [None] stands for -1. *)
Definition indexOf (s t : string) : option nat := String.index 0 t s.

Section Interframe.

(** [cvox.ChromeVoxJSON.stringify] and [parse] (which throws on a string
    it cannot parse), the host's [encodeURI], the string a value turns
    into when it is appended to a string, and what a listener throws, if
    anything, when it is called with a message. *)
Variable stringify : Message -> string.
Variable parse : string -> Outcome Parsed.
Variable encodeURI : string -> string.
Variable toStr : JsValue -> string.
Variable listenerThrows : Listener -> Parsed -> option Exception.

(** The [for] loop over the listeners: it runs while the entry is truthy,
    and a listener that throws ends it. *)
Fixpoint callListeners (ls : list (option Listener)) (message : Parsed)
    (f : Frame) : Outcome unit * Frame :=
  match ls with
  | Some listener :: rest =>
      let f := mkFrame (id f) (listeners f)
                       (delivered f ++ [(listener, message)]) in
      match listenerThrows listener message with
      | Some e => (Raised e, f)
      | None => callListeners rest message f
      end
  | None :: _ => (Returned tt, f)
  | [] => (Returned tt, f)
  end.

(** [cvox.Interframe.messageListener], on [event.data]: how the call
    ends, and the state it leaves.  When it returns it returns [false]. *)
Definition messageListener (data : JsValue) (f : Frame)
  : Outcome bool * Frame :=
  match data with
  | VString s =>
      if bool_decide (indexOf s IF_MSG_PREFIX = Some 0%nat) then
        let suffix := substr (String.length IF_MSG_PREFIX) s in
        match parse suffix with
        | Raised e => (Raised e, f)
        | Returned message =>
            match read message "command" with
            | Raised e => (Raised e, f)
            | Returned command =>
                let assigned :=
                  if bool_decide (command = VString SET_ID) then
                    match read message "id" with
                    | Returned v =>
                        (Returned tt, mkFrame v (listeners f) (delivered f))
                    | Raised e => (Raised e, f)
                    end
                  else (Returned tt, f) in
                match assigned with
                | (Raised e, f) => (Raised e, f)
                | (Returned _, f) =>
                    match callListeners (listeners f) message f with
                    | (Raised e, f) => (Raised e, f)
                    | (Returned _, f) => (Returned false, f)
                    end
                end
            end
        end
      else (Returned false, f)
  | _ => (Returned false, f)
  end.

Definition addListener (listener : option Listener) (f : Frame) : Frame :=
  mkFrame (id f) (listeners f ++ [listener]) (delivered f).

Definition sendMessageToWindow (message : Message) (window : WindowRef)
  : list Effect :=
  let encodedMessage := IF_MSG_PREFIX +:+ stringify message in
  [PostMessage window encodedMessage].

(** [sendMessageToIFrame]: what it does, and the iframe as it leaves it. *)
Definition sendMessageToIFrame (allowAccessToIframeContentWindow : bool)
    (message : Message) (iframe : IFrame) : list Effect * IFrame :=
  match (if allowAccessToIframeContentWindow then contentWindow iframe
         else None) with
  | Some w => (sendMessageToWindow message w, iframe)
  | None =>
      (* A content script can't access window.parent, but the page can, so
         inject a tiny bit of javascript into the page. *)
      let encodedMessage := IF_MSG_PREFIX +:+ stringify message in
      match (if foundById iframe then idAttribute iframe else None) with
      | Some iframeId =>
          (* Ideally, try to send it based on the iframe's existing id. *)
          let innerHTML :=
            "document.getElementById(decodeURI('" +:+ encodeURI iframeId
            +:+ "')).contentWindow.postMessage(decodeURI('"
            +:+ encodeURI encodedMessage +:+ "'), '*');" in
          ([AppendScript innerHTML; RemoveScriptAfter 1000], iframe)
      | None =>
          (* If not, add a style name and send it based on that. *)
          let styleName := "cvox_iframe" +:+ toStr (prop message "id") in
          let className' :=
            if String.eqb (className iframe) "" then styleName
            else if bool_decide (indexOf (className iframe) styleName = None)
                 then className iframe +:+ " " +:+ styleName
                 else className iframe in
          let innerHTML :=
            "document.getElementsByClassName(decodeURI('" +:+ encodeURI styleName
            +:+ "'))[0].contentWindow.postMessage(decodeURI('"
            +:+ encodeURI encodedMessage +:+ "'), '*');" in
          ([AppendScript innerHTML; RemoveScriptAfter 1000],
           mkIFrame (contentWindow iframe) (idAttribute iframe)
                    (foundById iframe) className')
      end
  end.

(** [window != window.parent]. *)
Definition isIframe (w : Window) : bool :=
  negb (bool_decide (parent w = Some (self w))).

(** [sendMessageToParentWindow]: what it does, and the caller's message
    object as it leaves it. *)
Definition sendMessageToParentWindow (w : Window) (f : Frame)
    (message : Message) : list Effect * Message :=
  if negb (isIframe w) then ([], message)
  else
    let message := <["sourceId" := id f]> message in
    match parent w with
    | Some p => (sendMessageToWindow message p, message)
    | None =>
        let encodedMessage := IF_MSG_PREFIX +:+ stringify message in
        ([SetLocationHref
            ("javascript:window.parent.postMessage('"
             +:+ encodeURI encodedMessage +:+ "', '*');")],
         message)
    end.

Definition sendIdToIFrame (allowAccessToIframeContentWindow : bool)
    (newId : JsValue) (iframe : IFrame) : list Effect * IFrame :=
  let message : Message :=
    {["command" := VString SET_ID; "id" := newId]} in
  sendMessageToIFrame allowAccessToIframeContentWindow message iframe.

End Interframe.

(** The listeners a message reaches when none of them throws: those
    registered before the first falsy entry. *)
Fixpoint reached (ls : list (option Listener)) : list Listener :=
  match ls with
  | Some l :: rest => l :: reached rest
  | _ => []
  end.

(** The listeners that are called with [message]: those before the first
    falsy entry, up to and including the first that throws. *)
Fixpoint called (listenerThrows : Listener -> Parsed -> option Exception)
    (message : Parsed) (ls : list (option Listener)) : list Listener :=
  match ls with
  | Some l :: rest =>
      l :: match listenerThrows l message with
           | Some _ => []
           | None => called listenerThrows message rest
           end
  | _ => []
  end.

(** What the first of them to throw throws. *)
Fixpoint thrown (listenerThrows : Listener -> Parsed -> option Exception)
    (message : Parsed) (ls : list (option Listener)) : option Exception :=
  match ls with
  | Some l :: rest =>
      match listenerThrows l message with
      | Some e => Some e
      | None => thrown listenerThrows message rest
      end
  | _ => None
  end.

(** How the message listener ends once the listeners have been called. *)
Definition ending (thrownBy : option Exception) : Outcome bool :=
  match thrownBy with
  | Some e => Raised e
  | None => Returned false
  end.

End Interframe.
(** ** [cvox.ChromeVoxKbHandler] *)

Module KbHandler.

Import UserCommands.

(** [document.activeElement], as the handler reads it. *)
Record ActiveElement := mkActiveElement {
  element : Node;
  isContentEditable : bool;
  href : string
}.

(** The calls the key-down listener makes on its collaborators, in the
    order it makes them. *)
Inductive Call :=
| KeyEventToKeySequence
| StopReading (arg : bool)
| EnterUserCommand (functionName : string)
| Command (functionName : string)
| ExitUserCommand (functionName : string)
| UpdateSelToArbitraryNode
| FinishNavCommand (messagePrefixStr : string).

(** The parts of [s.split(c)]. *)
Fixpoint split (c : Ascii.ascii) (s : string) : list string :=
  match s with
  | EmptyString => [EmptyString]
  | String x s' =>
      if Ascii.eqb x c then EmptyString :: split c s'
      else match split c s' with
           | part :: parts => String x part :: parts
           | [] => [String x EmptyString]
           end
  end.

(** The character [#]. *)
Definition hash : Ascii.ascii := Ascii.ascii_of_nat 35.

Section KbHandler.

(** What the collaborators keep ([Host]), key events, key sequences, the
    key map and the nodes of the document. *)
Context {Host KeyEvent KeySequence KeyMap Target : Type}.

Variable keyCode : KeyEvent -> Z.
Variable cvoxModifier : KeySequence -> bool.

(** [cvox.ChromeVox.isActive], [cvox.ChromeVox.entireDocumentIsHidden],
    [cvox.KeyUtil.sequencing], [document.activeElement] and
    [cvox.ChromeVoxKbHandler.handlerKeyMap]. *)
Variable isActive : Host -> bool.
Variable entireDocumentIsHidden : Host -> bool.
Variable sequencing : Host -> bool.
Variable activeElement : Host -> option ActiveElement.
Variable handlerKeyMap : Host -> option KeyMap.

Variable isInternalLink : ActiveElement -> bool.
Variable getElementById : Host -> option string -> option Target.
Variable getElementsByName : Host -> option string -> list Target.
Variable keyEventToKeySequence : KeyEvent -> Host -> KeySequence * Host.
Variable commandForKey : KeyMap -> KeySequence -> option string.
Variable stopReading : bool -> Host -> Host.
Variable enterUserCommand : string -> Host -> Host.
Variable exitUserCommand : string -> Host -> Host.
Variable updateSelToArbitraryNode : Target -> Host -> Host.
Variable finishNavCommand : string -> Host -> Host.

(** [cvox.ChromeVoxUserCommands.commands]: a command returns a boolean or
    nothing, or it throws; either way it leaves the host as it made it. *)
Variable commands : string -> option (Host -> Outcome (option bool) * Host).

(** The host state and the calls made so far. *)
Record Page := mkPage {
  host : Host;
  calls : list Call
}.

Definition step (c : Call) (f : Host -> Host) (p : Page) : Page :=
  mkPage (f (host p)) (calls p ++ [c]).

Definition mustPassEnterKey (p : Page) : bool :=
  match activeElement (host p) with
  | None => false
  | Some a =>
      isContentEditable a
      || jsEq (getAttribute (element a) "role") "textbox"
      || tagIs (element a) "INPUT"
      || (tagIs (element a) "A" && negb (isInternalLink a))
      || tagIs (element a) "SELECT"
      || tagIs (element a) "BUTTON"
      || tagIs (element a) "TEXTAREA"
  end.

(** The block of the listener that syncs to the target of an internal
    link: the target node it found, if any. *)
Definition internalLinkTarget (a : ActiveElement) (p : Page) : option Target :=
  if tagIs (element a) "A" && isInternalLink a then
    let targetId := split hash (href a) !! 1%nat in
    match getElementById (host p) targetId with
    | Some targetNode => Some targetNode
    | None =>
        match getElementsByName (host p) targetId with
        | targetNode :: _ => Some targetNode
        | [] => None
        end
    end
  else None.

(** A function name is falsy when it is absent or the empty string. *)
Definition truthyName (functionName : option string) : option string :=
  match functionName with
  | Some name => if String.eqb name "" then None else Some name
  | None => None
  end.

(** How the listener ends, and the page as it leaves it. *)
Definition basicKeyDownActionsListener (evt : KeyEvent) (p : Page)
  : Outcome (option bool) * Page :=
  (* The enter key can be handled either by ChromeVox or by the browser. *)
  if (keyCode evt =? 13) && isActive (host p) then
    match activeElement (host p) with
    | None => (Raised (Engine TypeError), p)  (* [document.activeElement.tagName] *)
    | Some a =>
        (* If this is an internal link, try to sync to it. *)
        match internalLinkTarget a p with
        | Some targetNode =>
            let p := step UpdateSelToArbitraryNode
                          (updateSelToArbitraryNode targetNode) p in
            let p := step (FinishNavCommand "") (finishNavCommand "") p in
            (Returned (Some true), p)
        | None =>
            (* If the user is focused on something that explicitly takes
               the enter key, that has precedence. *)
            if mustPassEnterKey p then (Returned (Some true), p)
            else
              (* Act on this element. *)
              match commands "actOnCurrentItem" with
              | Some func =>
                  let r := func (host p) in
                  (r.1, mkPage r.2 (calls p ++ [Command "actOnCurrentItem"]))
              | None => (Raised (Engine TypeError), p)
              end
        end
    end
  else
    let ks := keyEventToKeySequence evt (host p) in
    let keySequence := ks.1 in
    let p := mkPage ks.2 (calls p ++ [KeyEventToKeySequence]) in
    let functionName :=
      match handlerKeyMap (host p) with
      | Some map => commandForKey map keySequence
      | None => None
      end in
    match truthyName functionName with
    | None => (Returned (Some (negb (sequencing (host p)))), p)
    | Some functionName =>
        (* If ChromeVox isn't active, ignore every command except the one
           to toggle ChromeVox active again. *)
        if negb (isActive (host p))
           && negb (String.eqb functionName "toggleChromeVox")
        then (Returned (Some true), p)
        else
          let p :=
            if negb (String.eqb functionName "skipForward")
               && negb (String.eqb functionName "skipBackward")
            then step (StopReading false) (stopReading false) p
            else p in
          let '(returnValue, p) :=
            match commands functionName with
            | Some func =>
                let p := step (EnterUserCommand functionName)
                              (enterUserCommand functionName) p in
                let r := func (host p) in
                let p := mkPage r.2 (calls p ++ [Command functionName]) in
                match r.1 with
                | Returned v =>
                    (Returned v,
                     step (ExitUserCommand functionName)
                          (exitUserCommand functionName) p)
                | Raised e => (Raised e, p)
                end
            | None =>
                if cvoxModifier keySequence then (Returned (Some false), p)
                else (Returned (Some true), p)
            end in
          match returnValue with
          | Raised e => (Raised e, p)
          | Returned returnValue =>
              (* If the whole document is hidden from screen readers, let
                 the app catch keys as well. *)
              if entireDocumentIsHidden (host p) then (Returned (Some true), p)
              else (Returned returnValue, p)
          end
    end.

End KbHandler.

(** [compareKeyStr], the order [sortKeyToFunctionsTable_] sorts by: the
    length of the key binding first, then [localeCompare]. *)
Definition compareKeyStr (localeCompare : string -> string -> Z)
    (a b : string * string) : Z :=
  if (String.length a.1 <? String.length b.1)%nat then -1
  else if (String.length b.1 <? String.length a.1)%nat then 1
  else localeCompare a.1 b.1.

(** [a] may stand before [b]: the comparison is not positive. *)
Definition keyOrder (localeCompare : string -> string -> Z)
  : relation (string * string) :=
  fun a b => compareKeyStr localeCompare a b <= 0.

#[global] Instance keyOrder_dec (localeCompare : string -> string -> Z) :
  RelDecision (keyOrder localeCompare).
Proof. intros a b. unfold keyOrder. apply _. Defined.

(** [sortKeyToFunctionsTable_]: the entries of the table, in the order the
    [for ... in] loop meets them, sorted with the host's [sort] by
    [compareKeyStr]; the host's sort is taken to be a merge sort. *)
Definition sortKeyToFunctionsTable_ (localeCompare : string -> string -> Z)
    (keyToFunctionsTable : list (string * string)) : list (string * string) :=
  let sortingArray := keyToFunctionsTable in
  merge_sort (keyOrder localeCompare) sortingArray.



End KbHandler.

(** ** [commands['handleTab']] *)

Module HandleTab.

(** What the command does to the page and its collaborators. *)
Inductive Effect :=
| TtsStop
| RemoveDummySpan
| SearchHide
| Focus (n : NodeRef)
| InsertDummySpanBefore (n : NodeRef)
| FocusDummySpan.

(** [window.getSelection()]; [None] is [null]. *)
Record DomSelection := mkDomSelection {
  anchorNode : option NodeRef;
  focusNode : option NodeRef
}.

Section HandleTab.

(** The document: the tag name and the parent of a node, the element with
    the focus, whether a dummy span of an earlier run is still there, the
    selection, and [cvox.DomUtil.isControl]. *)
Variable tagName : NodeRef -> option string.
Variable parentNode : NodeRef -> option NodeRef.
Variable activeElement : option NodeRef.
Variable previousDummySpan : bool.
Variable getSelection : option DomSelection.
Variable isControl : NodeRef -> bool.

(** [n.tagName && (n.tagName == 'A' || test)]. *)
Definition linkOr (n : NodeRef) (test : bool) : bool :=
  match tagName n with
  | Some t => negb (String.eqb t "") && (String.eqb t "A" || test)
  | None => false
  end.

(** The effects, in order, and the returned boolean. *)
Definition handleTab : Completion (list Effect * bool) :=
  let effects := [TtsStop] in
  (* Clean up after any previous runs *)
  let effects := if previousDummySpan then effects ++ [RemoveDummySpan]
                 else effects in
  (* Hide the search widget if it is shown. *)
  let effects := effects ++ [SearchHide] in
  match activeElement with
  | None => Throw TypeError
  | Some active =>
      (* If the user is already focused on a link or control, nothing
         more needs to be done. *)
      if bool_decide (tagName active = Some "A") || isControl active
      then Normal (effects, true)
      else
        (* Try to find something reasonable to focus on in the current
           selection. *)
        match getSelection with
        | None => Normal (effects, true)
        | Some sel =>
            match anchorNode sel, focusNode sel with
            | Some anchor, Some focus =>
                if linkOr anchor (isControl anchor)
                then Normal (effects ++ [Focus anchor], true)
                else if linkOr focus (isControl focus)
                then Normal (effects ++ [Focus focus], true)
                else
                  match parentNode anchor with
                  | None => Throw TypeError
                  | Some anchorParent =>
                      if linkOr anchorParent (isControl anchorParent)
                      then Normal (effects ++ [Focus anchorParent], true)
                      else
                        match parentNode focus with
                        | None => Throw TypeError
                        | Some focusParent =>
                            if linkOr focusParent (isControl focus)
                            then Normal (effects ++ [Focus focusParent], true)
                            else
                              (* Create a dummy span immediately before
                                 the current position and focus on it. *)
                              Normal (effects
                                      ++ [InsertDummySpanBefore anchor;
                                          FocusDummySpan], true)
                        end
                  end
            | _, _ => Normal (effects, true)
            end
        end
  end.

End HandleTab.

Definition givesFocus (e : Effect) : bool :=
  match e with
  | Focus _ | FocusDummySpan => true
  | _ => false
  end.

(** The effects of a run that give something the focus. *)
Definition focusChanges (effects : list Effect) : list Effect :=
  List.filter givesFocus effects.

End HandleTab.

(** ** Sample hosts for the keyboard handler and the tab command *)

Module SampleKeys.

Import UserCommands KbHandler.

(** A host that knows whether ChromeVox is active, whether the document
    is hidden, and what has the focus.  A key event is its key code, a
    key sequence likewise; key 74 is bound to [forward], key 75 to
    [skipForward], key 84 to [toggleChromeVox] and key 9 to [handleTab],
    which throws when nothing has the focus. *)
Record Host := mkHost {
  active : bool;
  hidden : bool;
  focusedElement : option ActiveElement
}.

Definition commandForKey (_ : unit) (k : Z) : option string :=
  if k =? 74 then Some "forward"
  else if k =? 75 then Some "skipForward"
  else if k =? 84 then Some "toggleChromeVox"
  else if k =? 9 then Some "handleTab"
  else None.

Definition commands (name : string)
  : option (Host -> Outcome (option bool) * Host) :=
  if String.eqb name "forward" then Some (fun h => (Returned (Some false), h))
  else if String.eqb name "skipForward"
  then Some (fun h => (Returned (Some false), h))
  else if String.eqb name "toggleChromeVox"
  then Some (fun h => (Returned (Some false),
                       mkHost (negb (active h)) (hidden h) (focusedElement h)))
  else if String.eqb name "actOnCurrentItem"
  then Some (fun h => (Returned (Some false), h))
  else if String.eqb name "handleTab"
  then Some (fun h => match focusedElement h with
                      | Some _ => (Returned (Some true), h)
                      | None => (Raised (Engine TypeError), h)
                      end)
  else None.

Definition listener (evt : Z) (p : Page (Host := Host))
  : Outcome (option bool) * Page (Host := Host) :=
  basicKeyDownActionsListener (Target := unit)
    (fun k : Z => k) (fun _ : Z => false) active hidden (fun _ => false)
    focusedElement (fun _ => Some tt) (fun _ => false)
    (fun _ _ => None) (fun _ _ => [])
    (fun k h => (k, h)) commandForKey
    (fun _ h => h) (fun _ h => h) (fun _ h => h) (fun _ h => h) (fun _ h => h)
    commands evt p.

Definition inputBox : ActiveElement :=
  mkActiveElement (UserCommands.element "INPUT" []) false "".

(** A sample [localeCompare]: the order of the character codes. *)
Definition codeCompare (a b : string) : Z :=
  match String.compare a b with
  | Lt => -1
  | Eq => 0
  | Gt => 1
  end.

End SampleKeys.

(** * Properties of the layout-line walker *)

Import LayoutLineWalker.

Lemma isReversed_setReversed (b : bool) (s : CursorSelection) :
  isReversed (setReversed b s) = b.
Proof.
  unfold setReversed, isReversed.
  destruct (Bool.eqb b (wasReversed_ s)) eqn:E; [|reflexivity].
  symmetry. now apply Bool.eqb_prop.
Qed.

Lemma setReversed_same (s : CursorSelection) :
  setReversed (isReversed s) s = s.
Proof.
  unfold setReversed, isReversed. now rewrite Bool.eqb_reflx.
Qed.

Lemma absStart_setReversed (b : bool) (s : CursorSelection) :
  absStart (setReversed b s) = absStart s.
Proof.
  unfold setReversed, absStart.
  destruct b, s as [a e []]; reflexivity.
Qed.

Lemma absEnd_setReversed (b : bool) (s : CursorSelection) :
  absEnd (setReversed b s) = absEnd s.
Proof.
  unfold setReversed, absEnd.
  destruct b, s as [a e []]; reflexivity.
Qed.

Section ExtendFacts.

Context {Description : Type}.
Variable subWalker_ : Walker Description NavBraille.
Variable bottom : CursorSelection -> Z.

#[local] Abbreviation run := (sameLineRun subWalker_ bottom).
#[local] Abbreviation breakAfter := (lineBreakAfter subWalker_ bottom).

(** With fuel for one more turn than the run is long, the loop stops on
    the last selection of the run. *)
Lemma extend_loop_complete (n : nat) (s e : CursorSelection) :
  run n s e -> breakAfter e ->
  forall fuel : nat, (n < fuel)%nat ->
    extend_loop subWalker_ bottom fuel s = Normal e.
Proof.
  induction 1 as [s | n s m e Hnext Hsame Hrun IH]; intros Hbreak fuel Hfuel.
  - destruct fuel as [|fuel]; [lia|]. simpl.
    destruct Hbreak as [-> | (d & -> & Hd)]; [reflexivity|].
    unfold isVisualLineBreak_.
    destruct (Z.eqb_spec (bottom s) (bottom d)) as [Heq|_]; [|reflexivity].
    congruence.
  - destruct fuel as [|fuel]; [lia|]. simpl. rewrite Hnext.
    unfold isVisualLineBreak_. rewrite Hsame, Z.eqb_refl. simpl.
    apply IH; [assumption | lia].
Qed.

(** Whatever the loop returns is the last selection of a same-line run. *)
Lemma extend_loop_sound (fuel : nat) :
  forall s e : CursorSelection,
    extend_loop subWalker_ bottom fuel s = Normal e ->
    exists n : nat, (n < fuel)%nat /\ run n s e /\ breakAfter e.
Proof.
  induction fuel as [|fuel IH]; intros s e H; [discriminate|].
  simpl in H.
  destruct (AbstractWalker.next subWalker_ s) as [m|] eqn:Hnext.
  - unfold isVisualLineBreak_ in H.
    destruct (Z.eqb_spec (bottom s) (bottom m)) as [Heq|Hne]; simpl in H.
    + destruct (IH _ _ H) as (n & Hn & Hrun & Hbreak).
      exists (S n). split; [lia|]. split; [|assumption].
      now apply run_more with m.
    + injection H as <-. exists 0%nat. split; [lia|]. split; [constructor|].
      right. exists m. split; [assumption | congruence].
  - injection H as <-. exists 0%nat. split; [lia|]. split; [constructor|].
    now left.
Qed.

Lemma extend_loop_never_throws (fuel : nat) (s : CursorSelection) (err : JsError) :
  extend_loop subWalker_ bottom fuel s <> Throw err.
Proof.
  revert s. induction fuel as [|fuel IH]; intros s; [discriminate|].
  simpl. destruct (AbstractWalker.next subWalker_ s) as [m|]; [|discriminate].
  destruct (negb (isVisualLineBreak_ bottom s m)); [apply IH | discriminate].
Qed.

Lemma extend_complete (n : nat) (s r : CursorSelection) (fuel : nat) :
  extendsTo subWalker_ bottom n s r -> (n < fuel)%nat ->
  extend_ subWalker_ bottom fuel s = Normal r.
Proof.
  intros (e & Hrun & Hbreak & ->) Hfuel. unfold extend_.
  now rewrite (extend_loop_complete n s e Hrun Hbreak fuel Hfuel).
Qed.

Lemma extend_sound (fuel : nat) (s r : CursorSelection) :
  extend_ subWalker_ bottom fuel s = Normal r ->
  exists n : nat, (n < fuel)%nat /\ extendsTo subWalker_ bottom n s r.
Proof.
  unfold extend_. intros H.
  destruct (extend_loop subWalker_ bottom fuel s) as [e| |] eqn:Hloop;
    simpl in H; try discriminate.
  injection H as <-.
  destruct (extend_loop_sound _ _ _ Hloop) as (n & Hn & Hrun & Hbreak).
  exists n. split; [assumption|]. now exists e.
Qed.

End ExtendFacts.

Import StructuralLines.

(** ** Extension up to the visual line break *)

(** C1.  [extend_] returns the selection that starts at the start of its
    argument and ends at the end of the last selection of the run of
    sub-walker [next] results whose [bottom] equals, exactly, that of the
    selection before it; the first result on another baseline is dropped
    and is the visual line break.  It returns nothing else and never
    throws.  On three structural lines with bottoms 10, 10, 20, [sync] on
    the first line gives lines 1-2 and [next] from there gives line 3. *)
Theorem extend_stops_at_visual_line_break :
  (forall (Description : Type) (sub : Walker Description NavBraille)
          (bottom : CursorSelection -> Z) (n : nat) (s e : CursorSelection)
          (fuel : nat),
      sameLineRun sub bottom n s e ->
      lineBreakAfter sub bottom e ->
      (n < fuel)%nat ->
      extend_ sub bottom fuel s
      = Normal (newCursorSelection (start s) (end_ e) (isReversed s)))
  /\ (forall (Description : Type) (sub : Walker Description NavBraille)
             (bottom : CursorSelection -> Z) (fuel : nat)
             (s : CursorSelection),
        (forall r, extend_ sub bottom fuel s = Normal r ->
                   exists n, extendsTo sub bottom n s r)
        /\ (forall err, extend_ sub bottom fuel s <> Throw err))
  /\ (forall fuel : nat, (3 <= fuel)%nat ->
        LayoutLineWalker.sync walker3 bottom3 fuel (line 0 false)
        = Normal (Some (newCursorSelection (start (line 0 false))
                                           (end_ (line 1 false)) false))
        /\ LayoutLineWalker.next walker3 bottom3 fuel
             (newCursorSelection (start (line 0 false)) (end_ (line 1 false)) false)
           = Normal (Some (line 2 false))).
Proof.
  split; [|split].
  - intros D sub bottom n s e fuel Hrun Hbreak Hfuel.
    apply extend_complete with n; [|assumption]. now exists e.
  - intros D sub bottom fuel s. split.
    + intros r Hr. destruct (extend_sound _ _ _ _ _ Hr) as (n & _ & Hn).
      now exists n.
    + intros err H. unfold extend_ in H.
      destruct (extend_loop sub bottom fuel s) as [e| |] eqn:Hloop;
        simpl in H; try discriminate.
      now apply extend_loop_never_throws in Hloop.
  - intros fuel Hfuel.
    destruct fuel as [|[|[|fuel]]]; try lia.
    split; reflexivity.
Qed.

Lemma extend_stops_at_visual_line_break_witness :
  sameLineRun walker3 bottom3 1 (line 0 false) (line 1 false)
  /\ lineBreakAfter walker3 bottom3 (line 1 false)
  /\ extend_ walker3 bottom3 2 (line 0 false)
     = Normal (newCursorSelection (start (line 0 false))
                                  (end_ (line 1 false)) false).
Proof.
  assert (Hrun : sameLineRun walker3 bottom3 1 (line 0 false) (line 1 false)).
  { apply run_more with (line 1 false);
      [reflexivity | reflexivity | apply run_stop]. }
  assert (Hbreak : lineBreakAfter walker3 bottom3 (line 1 false)).
  { right. exists (line 2 false). split; [reflexivity | vm_compute; discriminate]. }
  split; [exact Hrun | split; [exact Hbreak |]].
  apply (proj1 extend_stops_at_visual_line_break nat walker3 bottom3
               1%nat (line 0 false) (line 1 false) 2%nat Hrun Hbreak).
  lia.
Defined.

(** ** [next] *)

(** C2, as stated, fails: moving backward from the third of the three
    lines returns the layout line of lines 1-2 with the reversed flag
    cleared, although the input was reversed. *)
Lemma next_clears_reversed_flag :
  LayoutLineWalker.next walker3 bottom3 3 (line 2 true)
  = Normal (Some (newCursorSelection (mkCursor 0 0) (mkCursor 1 1) false))
  /\ isReversed (newCursorSelection (mkCursor 0 0) (mkCursor 1 1) false)
     <> isReversed (line 2 true).
Proof. split; [reflexivity | discriminate]. Qed.

(** C2, amended.  [next] collapses the selection to its directed end and
    syncs the sub-walker there; when the sync fails, or the sub-walker has
    no successor of the collapsed selection, the result is [null].
    Otherwise the successor takes the input's reversed flag, is extended
    into a full layout line in that direction, and the layout line is
    returned with its reversed flag cleared: the returned flag is always
    [false], whatever the input's flag was, and the document range of the
    result is that of the extension. *)
Theorem next_extends_then_clears_reversed :
  forall (Description : Type) (sub : Walker Description NavBraille)
         (bottom : CursorSelection -> Z) (sel : CursorSelection) (fuel : nat),
    (AbstractWalker.sync sub (collapseToEnd sel) = None ->
     LayoutLineWalker.next sub bottom fuel sel = Normal None)
    /\ (AbstractWalker.next sub (collapseToEnd sel) = None ->
        LayoutLineWalker.next sub bottom fuel sel = Normal None)
    /\ (forall (synced st ext : CursorSelection) (n : nat),
          AbstractWalker.sync sub (collapseToEnd sel) = Some synced ->
          AbstractWalker.next sub (collapseToEnd sel) = Some st ->
          extendsTo sub bottom n (setReversed (isReversed sel) st) ext ->
          (n < fuel)%nat ->
          LayoutLineWalker.next sub bottom fuel sel
          = Normal (Some (setReversed false ext))
          /\ isReversed ext = isReversed sel
          /\ isReversed (setReversed false ext) = false
          /\ absStart (setReversed false ext) = absStart ext
          /\ absEnd (setReversed false ext) = absEnd ext).
Proof.
  intros D sub bottom sel fuel. unfold LayoutLineWalker.next, collapseToEnd.
  split; [|split].
  - now intros ->.
  - intros ->. now destruct (AbstractWalker.sync sub _).
  - intros synced st ext n -> -> Hext Hfuel.
    rewrite (extend_complete sub bottom n _ ext fuel Hext Hfuel). simpl.
    split; [reflexivity|].
    destruct Hext as (e & _ & _ & ->).
    split; [apply isReversed_setReversed|].
    split; [apply isReversed_setReversed|].
    split; [apply absStart_setReversed | apply absEnd_setReversed].
Qed.

Lemma next_extends_then_clears_reversed_witness :
  LayoutLineWalker.next walker3 bottom3 3 (line 2 true)
  = Normal (Some (setReversed false
                    (newCursorSelection (mkCursor 1 1) (mkCursor 0 0) true))).
Proof.
  refine (proj1 (proj2 (proj2
            (next_extends_then_clears_reversed nat walker3 bottom3
               (line 2 true) 3%nat))
            (line 2 true) (line 1 true)
            (newCursorSelection (mkCursor 1 1) (mkCursor 0 0) true) 1%nat
            _ _ _ _)).
  - reflexivity.
  - reflexivity.
  - exists (line 0 true). split; [|split].
    + apply run_more with (line 0 true);
        [reflexivity | reflexivity | apply run_stop].
    + left. reflexivity.
    + reflexivity.
  - lia.
Defined.

(** ** [sync] *)

(** C3.  When the sub-walker can sync the selection, [sync] returns a
    selection whose endpoints are the document-order start of the
    backward extension of the synced structural line and the
    document-order end of its forward extension, and whose reversed flag
    is the input's.  When the sub-walker keeps the direction of the
    selection it syncs, these are the result's own document-order start
    and end: the full layout line. *)
Theorem sync_spans_layout_line :
  forall (Description : Type) (sub : Walker Description NavBraille)
         (bottom : CursorSelection -> Z)
         (sel structuralLine fwd bwd : CursorSelection) (nf nb fuel : nat),
    AbstractWalker.sync sub sel = Some structuralLine ->
    extendsTo sub bottom nf (setReversed false structuralLine) fwd ->
    extendsTo sub bottom nb (setReversed true structuralLine) bwd ->
    (nf < fuel)%nat -> (nb < fuel)%nat ->
    exists r : CursorSelection,
      LayoutLineWalker.sync sub bottom fuel sel = Normal (Some r)
      /\ isReversed r = isReversed sel
      /\ (if isReversed structuralLine
          then start r = absEnd fwd /\ end_ r = absStart bwd
          else start r = absStart bwd /\ end_ r = absEnd fwd)
      /\ (isReversed structuralLine = isReversed sel ->
          absStart r = absStart bwd /\ absEnd r = absEnd fwd).
Proof.
  intros D sub bottom sel l fwd bwd nf nb fuel Hsync Hf Hb Hnf Hnb.
  unfold LayoutLineWalker.sync. rewrite Hsync.
  assert (Rf : isReversed fwd = false).
  { destruct Hf as (e & _ & _ & ->). apply isReversed_setReversed. }
  assert (Rb : isReversed bwd = true).
  { destruct Hb as (e & _ & _ & ->). apply isReversed_setReversed. }
  destruct (isReversed l) eqn:Rl.
  - rewrite <- Rl in Hb at 1. rewrite setReversed_same in Hb.
    rewrite (extend_complete sub bottom nb l bwd fuel Hb Hnb). simpl.
    rewrite (extend_complete sub bottom nf _ fwd fuel Hf Hnf). simpl.
    eexists. split; [reflexivity|].
    unfold absStart, absEnd, isReversed in *. simpl. rewrite Rf, Rb.
    repeat split; intros; try reflexivity.
    + destruct (wasReversed_ sel); [reflexivity | discriminate].
    + destruct (wasReversed_ sel); [reflexivity | discriminate].
  - rewrite <- Rl in Hf at 1. rewrite setReversed_same in Hf.
    rewrite (extend_complete sub bottom nf l fwd fuel Hf Hnf). simpl.
    rewrite (extend_complete sub bottom nb _ bwd fuel Hb Hnb). simpl.
    eexists. split; [reflexivity|].
    unfold absStart, absEnd, isReversed in *. simpl. rewrite Rf, Rb.
    repeat split; intros; try reflexivity.
    + destruct (wasReversed_ sel); [discriminate | reflexivity].
    + destruct (wasReversed_ sel); [discriminate | reflexivity].
Qed.

Lemma sync_spans_layout_line_witness :
  exists r : CursorSelection,
    LayoutLineWalker.sync walker3 bottom3 3 (line 1 true) = Normal (Some r)
    /\ absStart r = mkCursor 0 0 /\ absEnd r = mkCursor 1 1
    /\ isReversed r = true.
Proof.
  destruct (sync_spans_layout_line nat walker3 bottom3
              (line 1 true) (line 1 true)
              (newCursorSelection (mkCursor 1 0) (mkCursor 1 1) false)
              (newCursorSelection (mkCursor 1 1) (mkCursor 0 0) true)
              0%nat 1%nat 3%nat)
    as (r & Hr & Hrev & _ & Habs).
  - reflexivity.
  - exists (line 1 false). split; [apply run_stop | split; [|reflexivity]].
    right. exists (line 2 false). split; [reflexivity | vm_compute; discriminate].
  - exists (line 0 true). split; [|split; [|reflexivity]].
    + apply run_more with (line 0 true);
        [reflexivity | reflexivity | apply run_stop].
    + left. reflexivity.
  - lia.
  - lia.
  - exists r. destruct (Habs eq_refl) as [Hs He].
    split; [exact Hr | split; [exact Hs | split; [exact He | exact Hrev]]].
Defined.

(** ** Document boundaries *)

(** C4, as stated, fails for [sync]: the third of the three lines is at
    the forward boundary of the document, and [sync] returns that line
    rather than [null]. *)
Lemma sync_at_boundary_returns_the_line :
  atBoundary walker3 (line 2 false)
  /\ LayoutLineWalker.sync walker3 bottom3 3 (line 2 false)
     = Normal (Some (line 2 false))
  /\ LayoutLineWalker.sync walker3 bottom3 3 (line 2 false) <> Normal None.
Proof. split; [reflexivity | split; [reflexivity | discriminate]]. Qed.

(** C4, amended.  For a selection at a document boundary in its direction
    (the sub-walker has nothing beyond its directed end) [next] returns
    [null], not a wrapped-around selection, and calling [next] again and
    again from there fails every time.  [sync] does not report the
    boundary: it returns [null] exactly when the sub-walker cannot sync
    the selection, and it never throws.  When the sub-walker syncs the
    selection to a structural line and the same-baseline runs from that
    line end in both directions, [sync] returns the selection from the
    end of the backward run to the end of the forward run, with the
    input's reversed flag; when the sub-walker has nothing after the
    synced line in its direction, the returned selection ends at the
    directed end of that line. *)
Theorem boundary_reports_failure :
  forall (Description : Type) (sub : Walker Description NavBraille)
         (bottom : CursorSelection -> Z) (sel : CursorSelection) (fuel : nat),
    (atBoundary sub sel ->
       LayoutLineWalker.next sub bottom fuel sel = Normal None
       /\ forall k : nat,
            nextRepeatedly sub bottom fuel k sel = replicate k (Normal None))
    /\ (LayoutLineWalker.sync sub bottom fuel sel = Normal None
        <-> AbstractWalker.sync sub sel = None)
    /\ (forall structuralLine : CursorSelection,
          AbstractWalker.sync sub sel = Some structuralLine ->
          let turned :=
            setReversed (negb (isReversed structuralLine)) structuralLine in
          (forall err : JsError,
              LayoutLineWalker.sync sub bottom fuel sel <> Throw err)
          /\ (forall (nf nb : nat) (fwd bwd : CursorSelection),
                extendsTo sub bottom nf structuralLine fwd ->
                extendsTo sub bottom nb turned bwd ->
                (nf < fuel)%nat -> (nb < fuel)%nat ->
                LayoutLineWalker.sync sub bottom fuel sel
                = Normal (Some (newCursorSelection (end_ bwd) (end_ fwd)
                                                   (isReversed sel))))
          /\ (AbstractWalker.next sub structuralLine = None ->
              forall (nb : nat) (bwd : CursorSelection),
                extendsTo sub bottom nb turned bwd -> (nb < fuel)%nat ->
                LayoutLineWalker.sync sub bottom fuel sel
                = Normal (Some (newCursorSelection (end_ bwd)
                                                   (end_ structuralLine)
                                                   (isReversed sel))))).
Proof.
  intros D sub bottom sel fuel. split; [|split].
  - intros Hb.
    assert (Hnext : LayoutLineWalker.next sub bottom fuel sel = Normal None).
    { unfold atBoundary, collapseToEnd in Hb. unfold LayoutLineWalker.next.
      rewrite Hb. now destruct (AbstractWalker.sync sub _). }
    split; [exact Hnext|].
    induction k as [|k IH]; [reflexivity|].
    simpl. rewrite Hnext. now rewrite IH.
  - unfold LayoutLineWalker.sync.
    destruct (AbstractWalker.sync sub sel) as [l|]; [|tauto].
    split; [|discriminate].
    destruct (extend_ sub bottom fuel l); simpl; try discriminate.
    destruct (extend_ sub bottom fuel _); simpl; discriminate.
  - intros l Hsync turned.
    assert (Hboth : forall (nf nb : nat) (fwd bwd : CursorSelection),
               extendsTo sub bottom nf l fwd ->
               extendsTo sub bottom nb turned bwd ->
               (nf < fuel)%nat -> (nb < fuel)%nat ->
               LayoutLineWalker.sync sub bottom fuel sel
               = Normal (Some (newCursorSelection (end_ bwd) (end_ fwd)
                                                  (isReversed sel)))).
    { intros nf nb fwd bwd Hf Hb Hnf Hnb. unfold LayoutLineWalker.sync.
      rewrite Hsync.
      rewrite (extend_complete sub bottom nf l fwd fuel Hf Hnf). simpl.
      fold turned.
      now rewrite (extend_complete sub bottom nb turned bwd fuel Hb Hnb). }
    split; [|split; [exact Hboth|]].
    + intros err H. unfold LayoutLineWalker.sync, extend_ in H.
      rewrite Hsync in H.
      destruct (extend_loop sub bottom fuel l) as [e| |] eqn:He;
        cbn [cbind] in H;
        [| now apply extend_loop_never_throws in He | discriminate].
      destruct (extend_loop sub bottom fuel (setReversed _ l))
        as [e'| |] eqn:He';
        cbn [cbind] in H;
        [discriminate | now apply extend_loop_never_throws in He'
        | discriminate].
    + intros Hlast nb bwd Hb Hnb.
      apply (Hboth 0%nat nb
               (newCursorSelection (start l) (end_ l) (isReversed l)) bwd);
        [|exact Hb|lia|exact Hnb].
      exists l. split; [apply run_stop | split; [now left | reflexivity]].
Qed.

Lemma boundary_reports_failure_witness :
  atBoundary walker3 (line 2 false)
  /\ LayoutLineWalker.next walker3 bottom3 3 (line 2 false) = Normal None
  /\ LayoutLineWalker.sync walker3 bottom3 3 (line 2 false)
     = Normal (Some (line 2 false)).
Proof.
  assert (Hb : atBoundary walker3 (line 2 false)) by reflexivity.
  split; [exact Hb|]. split.
  - exact (proj1 (proj1 (boundary_reports_failure nat walker3 bottom3
                           (line 2 false) 3%nat) Hb)).
  - apply (proj2 (proj2 (proj2 (proj2 (boundary_reports_failure nat walker3
                                         bottom3 (line 2 false) 3%nat))
                                 (line 2 false) eq_refl))
             eq_refl 0%nat (line 2 true)); [|lia].
    exists (line 2 true). split; [apply run_stop | split; [|reflexivity]].
    right. exists (line 1 true).
    split; [reflexivity | vm_compute; discriminate].
Defined.

(** ** Descriptions and braille when the sub-walker cannot sync *)

(** C10.  When the sub-walker cannot sync the collapsed start of the
    selection, [getDescription] returns the empty array.  When it cannot
    sync the selection, [getBraille] does not return the empty braille
    line: [this.sync(sel)] is [null] and the call of [setReversed] on it
    throws, before the guard that was meant to return the empty line. *)
Theorem getBraille_throws_when_sync_fails :
  forall (Description : Type) (sub : Walker Description NavBraille)
         (bottom : CursorSelection -> Z)
         (isInputTypeText isHTMLTextAreaElement : NodeRef -> bool)
         (selectionStart selectionEnd : NodeRef -> Z) (ITEM_SEPARATOR : string)
         (fuel : nat) (prevSel sel : CursorSelection),
    (AbstractWalker.sync sub
       (newCursorSelection (absStart sel) (absStart sel) false) = None ->
     LayoutLineWalker.getDescription sub fuel prevSel sel = Normal [])
    /\ (AbstractWalker.sync sub sel = None ->
        LayoutLineWalker.getBraille sub bottom isInputTypeText
          isHTMLTextAreaElement selectionStart selectionEnd ITEM_SEPARATOR
          fuel prevSel sel
        = Throw TypeError).
Proof.
  intros D sub bottom itt ita ss se sep fuel prevSel sel. split.
  - intros H. unfold LayoutLineWalker.getDescription, clone.
    replace (start (setReversed false sel)) with (absStart sel).
    + now rewrite H.
    + unfold absStart, setReversed. now destruct sel as [a e []].
  - intros H. unfold LayoutLineWalker.getBraille, LayoutLineWalker.sync.
    now rewrite H.
Qed.

Lemma getBraille_throws_when_sync_fails_witness :
  AbstractWalker.sync walker3 (line 7 false) = None
  /\ LayoutLineWalker.getBraille walker3 bottom3 (fun _ => false)
       (fun _ => false) (fun _ => 0) (fun _ => 0) " " 3 (line 0 false)
       (line 7 false)
     = Throw TypeError.
Proof.
  split; [reflexivity|].
  apply (proj2 (getBraille_throws_when_sync_fails nat walker3 bottom3
                  (fun _ => false) (fun _ => false) (fun _ => 0) (fun _ => 0)
                  " " 3%nat (line 0 false) (line 7 false))).
  reflexivity.
Defined.

(** * Properties of the user commands *)

Import UserCommands.

Section TraceFacts.

Context {NavState Description Predicate : Type}.
Variable nm : NavigationManager NavState Description Predicate.
Variable isControlWidget isInputTypeText : Node -> bool.

#[local] Abbreviation World := (World NavState Description Predicate).

Lemma speakDescriptions_trace (ds : list Description) (q : Z) (w : World) :
  trace (speakDescriptions ds q w)
  = trace w ++ match ds with
               | [] => []
               | d :: ds' => DescriptionSpeak d q
                             :: map (fun d => DescriptionSpeak d 1) ds'
               end.
Proof.
  revert q w. induction ds as [|d ds IH]; intros q w; simpl.
  - now rewrite app_nil_r.
  - rewrite IH. simpl. rewrite <- app_assoc. simpl.
    destruct ds; reflexivity.
Qed.

Lemma speakDescriptions_rest (ds : list Description) (q : Z) (w : World) :
  nav (speakDescriptions ds q w) = nav w
  /\ userCommandLevel_ (speakDescriptions ds q w) = userCommandLevel_ w
  /\ clock (speakDescriptions ds q w) = clock w
  /\ timers (speakDescriptions ds q w) = timers w.
Proof.
  revert q w. induction ds as [|d ds IH]; intros q w; simpl; [tauto|].
  destruct (IH 1 (emit (DescriptionSpeak d q) w)) as (-> & -> & -> & ->).
  tauto.
Qed.

Lemma emitAll_trace (es : list Earcon) (w : World) :
  trace (fold_left (fun w e => emit (PlayEarcon e) w) es w)
  = trace w ++ map PlayEarcon es.
Proof.
  revert w. induction es as [|e es IH]; intros w; simpl.
  - now rewrite app_nil_r.
  - rewrite IH. simpl. now rewrite <- app_assoc.
Qed.

Lemma emitAll_rest (es : list Earcon) (w : World) :
  let w' := fold_left (fun w e => emit (PlayEarcon e) w) es w in
  nav w' = nav w /\ userCommandLevel_ w' = userCommandLevel_ w
  /\ clock w' = clock w /\ timers w' = timers w.
Proof.
  revert w. induction es as [|e es IH]; intros w; simpl; [tauto|].
  destruct (IH (emit (PlayEarcon e) w)) as (-> & -> & -> & ->). tauto.
Qed.

Lemma finishNavCommand_trace (prefix : string) (w : World) :
  trace (finishNavCommand nm isControlWidget isInputTypeText prefix w)
  = trace w
    ++ [ScrollToSelection; NavSyncToSelection]
    ++ spoken prefix (nm_getCurrentDescription nm (nav w))
    ++ map PlayEarcon
         (concat (map (earconsFor isControlWidget isInputTypeText)
                      (nm_getChangedAncestors nm
                         (nm_syncToSelection nm (nav w))))).
Proof.
  unfold finishNavCommand, spoken, playEarcons.
  destruct (negb (String.eqb prefix "")); simpl.
  - rewrite emitAll_trace, speakDescriptions_trace. simpl.
    destruct (speakDescriptions_rest (nm_getCurrentDescription nm (nav w)) 1
      (speak prefix 0 PERSONALITY_ANNOTATION
        (emit NavSyncToSelection
          (setNav (nm_syncToSelection nm (nav w))
            (emit ScrollToSelection (setTimeout NavSetFocus 0 w))))))
      as (-> & _).
    simpl. rewrite <- !app_assoc. simpl.
    destruct (nm_getCurrentDescription nm (nav w)); reflexivity.
  - rewrite emitAll_trace, speakDescriptions_trace. simpl.
    destruct (speakDescriptions_rest (nm_getCurrentDescription nm (nav w)) 0
        (emit NavSyncToSelection
          (setNav (nm_syncToSelection nm (nav w))
            (emit ScrollToSelection (setTimeout NavSetFocus 0 w)))))
      as (-> & _).
    simpl. rewrite <- !app_assoc. reflexivity.
Qed.

Lemma finishNavCommand_nav (prefix : string) (w : World) :
  nav (finishNavCommand nm isControlWidget isInputTypeText prefix w)
  = nm_syncToSelection nm (nav w).
Proof.
  unfold finishNavCommand, playEarcons.
  destruct (negb (String.eqb prefix "")); simpl;
    match goal with
    | |- nav (fold_left _ ?es ?w0) = _ =>
        destruct (emitAll_rest es w0) as (-> & _)
    end;
    match goal with
    | |- nav (speakDescriptions ?ds ?q ?w0) = _ =>
        destruct (speakDescriptions_rest ds q w0) as (-> & _)
    end; reflexivity.
Qed.

End TraceFacts.

Section CommandFacts.

Context {NavState Description Predicate : Type}.
Variable nm : NavigationManager NavState Description Predicate.
Variable isControlWidget isInputTypeText : Node -> bool.

#[local] Abbreviation World := (World NavState Description Predicate).
#[local] Abbreviation forward := (forward nm isControlWidget isInputTypeText).
#[local] Abbreviation backward := (backward nm isControlWidget isInputTypeText).
#[local] Abbreviation earcons :=
  (fun s : NavState =>
     map (@PlayEarcon Description Predicate)
         (concat (map (earconsFor isControlWidget isInputTypeText)
                      (nm_getChangedAncestors nm (nm_syncToSelection nm s))))).


(** C5.  When a generic forward command runs in table mode and the move
    leaves the current cell ([checkCellBoundaries] fails), the command
    undoes the move with exactly one move in the opposite direction,
    makes no other move and announces 'End of cell. ' before the
    description; the position it ends on is the one the undo reached.
    The backward command does the same with the directions exchanged. *)
Theorem end_of_cell_undoes_the_move (w : World) :
  (let moved := (nm_next nm true (nav w)).2 in
   let undone := nm_previous nm true moved in
   nm_inTableMode nm moved = true ->
   nm_checkCellBoundaries nm moved = false ->
   (forward w).1 = negb undone.1
   /\ nav (forward w).2 = nm_syncToSelection nm undone.2
   /\ trace (forward w).2
      = trace w
        ++ [NavNext true; NavPrevious true; ScrollToSelection; NavSyncToSelection]
        ++ [TtsSpeak "End of cell. " 0 PERSONALITY_ANNOTATION]
        ++ map (fun d => DescriptionSpeak d 1)
               (nm_getCurrentDescription nm undone.2)
        ++ earcons undone.2)
  /\ (let moved := (nm_previous nm true (nav w)).2 in
      let undone := nm_next nm true moved in
      nm_inTableMode nm moved = true ->
      nm_checkCellBoundaries nm moved = false ->
      (backward w).1 = negb undone.1
      /\ nav (backward w).2 = nm_syncToSelection nm undone.2
      /\ trace (backward w).2
         = trace w
           ++ [NavPrevious true; NavNext true; ScrollToSelection; NavSyncToSelection]
           ++ [TtsSpeak "End of cell. " 0 PERSONALITY_ANNOTATION]
           ++ map (fun d => DescriptionSpeak d 1)
                  (nm_getCurrentDescription nm undone.2)
           ++ earcons undone.2).
Proof.
  split; intros moved undone Htable Hcell; subst moved undone.
  - unfold UserCommands.forward, navCall. simpl. rewrite Htable, Hcell. simpl.
    split; [reflexivity|]. split; [apply finishNavCommand_nav|].
    rewrite finishNavCommand_trace. simpl. rewrite <- !app_assoc. reflexivity.
  - unfold UserCommands.backward, navCall. simpl. rewrite Htable, Hcell. simpl.
    split; [reflexivity|]. split; [apply finishNavCommand_nav|].
    rewrite finishNavCommand_trace. simpl. rewrite <- !app_assoc. reflexivity.
Qed.


End CommandFacts.

Lemma end_of_cell_undoes_the_move_witness :
  let w := LinearDocument.idle (LinearDocument.mkState 2 10 true 1 2) in
  let r := UserCommands.forward LinearDocument.manager
             (fun _ => false) (fun _ => false) w in
  nav r.2 = LinearDocument.mkState 2 10 true 1 2
  /\ trace r.2
     = [NavNext true; NavPrevious true; ScrollToSelection; NavSyncToSelection;
        TtsSpeak "End of cell. " 0 PERSONALITY_ANNOTATION; DescriptionSpeak 2%nat 1].
Proof.
  intros w r.
  destruct (proj1 (end_of_cell_undoes_the_move LinearDocument.manager
                     (fun _ => false) (fun _ => false) w) eq_refl eq_refl)
    as (_ & Hnav & Htrace).
  split; [exact Hnav | exact Htrace].
Defined.


(** ** The user-command guard *)

Section GuardFacts.

Context {NavState Description Predicate : Type}.
Variable nm : NavigationManager NavState Description Predicate.

#[local] Abbreviation World := (World NavState Description Predicate).

(** C7.  The guard is a depth counter: [markInUserCommand_] adds one to it
    and sets a timer, due 100 time units later, that takes one off;
    [isInUserCommand] holds exactly when the counter is positive.  With
    one region entered at time 0 and a second at time 10, the guard reads
    busy at every time from 0 up to 110 and idle from 110 on. *)
Theorem guard_is_a_depth_counter :
  (forall w : World,
      userCommandLevel_ (markInUserCommand_ w) = userCommandLevel_ w + 1
      /\ timers (markInUserCommand_ w)
         = timers w ++ [(clock w + 100, UserCommandLevelDown)]
      /\ runCallback nm UserCommandLevelDown w
         = setLevel (userCommandLevel_ w - 1) w)
  /\ (forall w : World, isInUserCommand w = true <-> 0 < userCommandLevel_ w)
  /\ (forall (s : NavState) (tr : list (Event Description Predicate)),
        let w0 : World := mkWorld s 0 0 [] tr in
        let w1 := markInUserCommand_ w0 in
        let w2 := markInUserCommand_ (advanceTo nm 10 w1) in
        isInUserCommand w0 = false
        /\ (forall t, 0 <= t < 10 -> isInUserCommand (advanceTo nm t w1) = true)
        /\ (forall t, 10 <= t < 110 -> isInUserCommand (advanceTo nm t w2) = true)
        /\ (forall t, 110 <= t -> isInUserCommand (advanceTo nm t w2) = false)).
Proof.
  split; [|split].
  - intros w. repeat split.
  - intros w. unfold isInUserCommand. apply Z.ltb_lt.
  - intros s tr w0 w1 w2.
    assert (E1 : w1 = mkWorld s 1 0 [(100, UserCommandLevelDown)] tr)
      by reflexivity.
    assert (E2 : w2 = mkWorld s 2 10 [(100, UserCommandLevelDown);
                                       (110, UserCommandLevelDown)] tr)
      by reflexivity.
    rewrite E1, E2. clear E1 E2 w1 w2. subst w0.
    split; [reflexivity|].
    unfold advanceTo, isInUserCommand.
    split; [|split]; intros t Ht.
    + change (runTimers nm _ t _) with
        (if 100 <=? t
         then mkWorld s 0 100 [] tr
         else mkWorld s 1 0 [(100, UserCommandLevelDown)] tr).
      destruct (Z.leb_spec 100 t); [lia | reflexivity].
    + change (runTimers nm _ t _) with
        (if 100 <=? t
         then (if 110 <=? t
               then mkWorld s 0 110 [] tr
               else mkWorld s 1 100 [(110, UserCommandLevelDown)] tr)
         else mkWorld s 2 10 [(100, UserCommandLevelDown);
                               (110, UserCommandLevelDown)] tr).
      destruct (Z.leb_spec 100 t); [|reflexivity].
      destruct (Z.leb_spec 110 t); [lia | reflexivity].
    + change (runTimers nm _ t _) with
        (if 100 <=? t
         then (if 110 <=? t
               then mkWorld s 0 110 [] tr
               else mkWorld s 1 100 [(110, UserCommandLevelDown)] tr)
         else mkWorld s 2 10 [(100, UserCommandLevelDown);
                               (110, UserCommandLevelDown)] tr).
      destruct (Z.leb_spec 100 t); [|lia].
      destruct (Z.leb_spec 110 t); [reflexivity | lia].
Qed.

End GuardFacts.

Lemma guard_is_a_depth_counter_witness :
  let w1 := markInUserCommand_ (LinearDocument.idle (LinearDocument.mkState 0 1 false 0 0)) in
  let w2 := markInUserCommand_ (advanceTo LinearDocument.manager 10 w1) in
  isInUserCommand (advanceTo LinearDocument.manager 105 w2) = true
  /\ isInUserCommand (advanceTo LinearDocument.manager 110 w2) = false.
Proof.
  intros w1 w2.
  destruct (proj2 (proj2 (guard_is_a_depth_counter LinearDocument.manager))
              (LinearDocument.mkState 0 1 false 0 0) [])
    as (_ & _ & Hbusy & Hidle).
  split; [apply (Hbusy 105); lia | apply (Hidle 110); lia].
Defined.

(** ** Predicates *)

(** The forward loop returns the matching node of least index. *)
Lemma scanForward_first (test : Node -> bool) (nodes : list Node) :
  firstMatching test nodes (scanForward test nodes).
Proof.
  induction nodes as [|n rest IH]; simpl.
  - intros j m H. now rewrite lookup_nil in H.
  - destruct (test n) eqn:Hn.
    + exists 0%nat. split; [reflexivity|]. split; [assumption|].
      intros j m Hj. lia.
    + destruct (scanForward test rest) as [r|]; simpl in *.
      * destruct IH as (i & Hi & Hr & Hlow).
        exists (S i). split; [assumption|]. split; [assumption|].
        intros [|j] m Hj Hm; simpl in Hm.
        -- now injection Hm as <-.
        -- apply (Hlow j m); [lia | assumption].
      * intros [|j] m Hm; simpl in Hm.
        -- now injection Hm as <-.
        -- now apply (IH j m).
Qed.

(** Counting down from [i], the loop returns the matching node of
    greatest index below [i]. *)
Lemma containsTagName_from_last (arr : list Node) (t : string) (i : nat) :
  (i <= length arr)%nat ->
  match containsTagName_from arr t i with
  | Some n =>
      exists k : nat, (k < i)%nat /\ arr !! k = Some n /\ tagIs n t = true /\
        forall (j : nat) (m : Node),
          (k < j < i)%nat -> arr !! j = Some m -> tagIs m t = false
  | None =>
      forall (j : nat) (m : Node),
        (j < i)%nat -> arr !! j = Some m -> tagIs m t = false
  end.
Proof.
  induction i as [|i IH]; intros Hi; simpl.
  - intros j m Hj. lia.
  - destruct (arr !! i) as [n|] eqn:Hn.
    + destruct (tagIs n t) eqn:Ht.
      * exists i. split; [lia|]. split; [assumption|]. split; [assumption|].
        intros j m Hj. lia.
      * specialize (IH ltac:(lia)).
        destruct (containsTagName_from arr t i) as [r|].
        -- destruct IH as (k & Hk & Hr & Htag & Hup).
           exists k. split; [lia|]. split; [assumption|]. split; [assumption|].
           intros j m Hj Hm.
           destruct (decide (j = i)) as [->|Hne].
           ++ rewrite Hn in Hm. now injection Hm as <-.
           ++ apply (Hup j m); [lia | assumption].
        -- intros j m Hj Hm.
           destruct (decide (j = i)) as [->|Hne].
           ++ rewrite Hn in Hm. now injection Hm as <-.
           ++ apply (IH j m); [lia | assumption].
    + apply lookup_ge_None in Hn. lia.
Qed.

Lemma containsTagName_last (arr : list Node) (t : string) :
  lastMatching (fun n => tagIs n t) arr (containsTagName_ arr t).
Proof.
  unfold containsTagName_, lastMatching.
  pose proof (containsTagName_from_last arr t (length arr) (le_n _)) as H.
  destruct (containsTagName_from arr t (length arr)) as [r|].
  - destruct H as (k & Hk & Hr & Htag & Hup).
    exists k. split; [assumption|]. split; [assumption|].
    intros j m Hj Hm. apply (Hup j m); [|assumption].
    apply lookup_lt_Some in Hm. lia.
  - intros j m Hm. apply (H j m); [|assumption].
    now apply lookup_lt_Some in Hm.
Qed.

(** C8.  The not-link predicate is true exactly when the link predicate
    returns [null], which is when no node of the array is a link. *)
Theorem notLink_negates_link (nodes : list Node) :
  (notLinkPredicate_ nodes = true <-> linkPredicate_ nodes = None)
  /\ (notLinkPredicate_ nodes = false <-> exists n, linkPredicate_ nodes = Some n)
  /\ (notLinkPredicate_ nodes = true
      <-> forall (j : nat) (m : Node), nodes !! j = Some m -> isLink m = false).
Proof.
  unfold notLinkPredicate_, linkPredicate_.
  pose proof (scanForward_first isLink nodes) as H.
  destruct (scanForward isLink nodes) as [r|]; simpl in H.
  - split; [|split].
    + split; discriminate.
    + split; [eauto | reflexivity].
    + split; [discriminate|]. intros Hall.
      destruct H as (i & Hi & Hr & _). rewrite (Hall i r Hi) in Hr.
      discriminate.
  - split; [|split].
    + tauto.
    + split; [discriminate | intros [n Hn]; discriminate].
    + tauto.
Qed.

(** C9.  Every category predicate is a function of the array alone.  The
    general predicates scan it front to back and return the first
    matching node, or [null] when none matches; the tag-equality
    predicates, through [containsTagName_], scan it back to front and
    return the matching node of greatest index. *)
Theorem predicates_scan_order
    (isLandmark isInputTypeText : Node -> bool) (nodes : list Node) :
  (firstMatching isCheckbox nodes (checkboxPredicate_ nodes)
   /\ firstMatching isRadio nodes (radioPredicate_ nodes)
   /\ firstMatching isSlider nodes (sliderPredicate_ nodes)
   /\ firstMatching isGraphic nodes (graphicPredicate_ nodes)
   /\ firstMatching isButton nodes (buttonPredicate_ nodes)
   /\ firstMatching isComboBox nodes (comboBoxPredicate_ nodes)
   /\ firstMatching (isEditText isInputTypeText) nodes
        (editTextPredicate_ isInputTypeText nodes)
   /\ firstMatching isHeading nodes (headingPredicate_ nodes)
   /\ firstMatching isLink nodes (linkPredicate_ nodes)
   /\ firstMatching isList nodes (listPredicate_ nodes)
   /\ firstMatching isListItem nodes (listItemPredicate_ nodes)
   /\ firstMatching isFormField nodes (formFieldPredicate_ nodes)
   /\ firstMatching (isJump isLandmark) nodes (jumpPredicate_ isLandmark nodes)
   /\ firstMatching isLandmark nodes (landmarkPredicate_ isLandmark nodes))
  /\ ((forall tagName : string,
         lastMatching (fun n => tagIs n tagName) nodes
                      (containsTagName_ nodes tagName))
      /\ lastMatching (fun n => tagIs n "H1") nodes (heading1Predicate_ nodes)
      /\ lastMatching (fun n => tagIs n "H2") nodes (heading2Predicate_ nodes)
      /\ lastMatching (fun n => tagIs n "H3") nodes (heading3Predicate_ nodes)
      /\ lastMatching (fun n => tagIs n "H4") nodes (heading4Predicate_ nodes)
      /\ lastMatching (fun n => tagIs n "H5") nodes (heading5Predicate_ nodes)
      /\ lastMatching (fun n => tagIs n "H6") nodes (heading6Predicate_ nodes)
      /\ lastMatching (fun n => tagIs n "TABLE") nodes (tablePredicate_ nodes)
      /\ lastMatching (fun n => tagIs n "BLOCKQUOTE") nodes
           (blockquotePredicate_ nodes)).
Proof.
  split.
  - repeat split; apply scanForward_first.
  - split; [intros tagName; apply containsTagName_last|].
    repeat split; apply containsTagName_last.
Qed.

Lemma notLink_negates_link_witness :
  linkPredicate_ sampleDelta = Some (element "A" [("id", "first")])
  /\ notLinkPredicate_ sampleDelta = false
  /\ notLinkPredicate_ [textNode; element "H1" []] = true.
Proof.
  assert (H : linkPredicate_ sampleDelta = Some (element "A" [("id", "first")]))
    by (vm_compute; reflexivity).
  split; [exact H|]. split.
  - apply (proj1 (proj2 (notLink_negates_link sampleDelta))).
    eexists. exact H.
  - apply (proj1 (notLink_negates_link [textNode; element "H1" []])).
    vm_compute. reflexivity.
Defined.

Lemma predicates_scan_order_witness :
  firstMatching isLink sampleDelta (Some (element "A" [("id", "first")]))
  /\ lastMatching (fun n => tagIs n "A") sampleDelta
       (Some (element "A" [("id", "second")])).
Proof.
  pose proof (predicates_scan_order (fun _ => false) (fun _ => false)
                sampleDelta) as [Hfirst [Hlast _]].
  split.
  - exact (proj1 (proj2 (proj2 (proj2 (proj2 (proj2 (proj2 (proj2
             (proj2 Hfirst))))))))).
  - exact (Hlast "A").
Defined.

(** * Further properties of the layout-line walker *)

Section LayoutLineMore.

Context {Description : Type}.
Variable subWalker_ : Walker Description NavBraille.
Variable bottom : CursorSelection -> Z.

Lemma sameLineRun_bottom (n : nat) (s e : CursorSelection) :
  sameLineRun subWalker_ bottom n s e -> bottom e = bottom s.
Proof.
  induction 1 as [s | n s m e _ Hsame _ IH]; [reflexivity | congruence].
Qed.

(** X1.  A layout line has one baseline: although [extend_] compares each
    structural line only with the one before it, the last line it merges
    has exactly the [bottom] of the line it started from. *)
Theorem layout_line_has_one_bottom (fuel : nat) (s e : CursorSelection) :
  extend_loop subWalker_ bottom fuel s = Normal e -> bottom e = bottom s.
Proof.
  intros H. destruct (extend_loop_sound _ _ _ _ _ H) as (n & _ & Hrun & _).
  now apply sameLineRun_bottom with n.
Qed.

Lemma getDescription_loop_walk (target : Cursor) (c : CursorSelection)
    (chain : list CursorSelection) :
  walk subWalker_ target c chain ->
  forall (fuel : nat) (acc : list Description) (prev : CursorSelection),
    (length chain <= fuel)%nat ->
    exists st,
      getDescription_loop subWalker_ fuel target acc prev (Some c) = Normal st
      /\ match st with
         | (ds, p, Some l) =>
             ds ++ AbstractWalker.getDescription subWalker_ p l
         | (ds, _, None) => ds
         end = acc ++ describeAll subWalker_ prev chain.
Proof.
  induction 1 as [c Hc | c Hc Hnone | c n rest Hc Hnext Hwalk IH];
    intros fuel acc prev Hfuel; simpl in Hfuel.
  - eexists. destruct fuel; simpl; rewrite Hc; simpl;
      (split; [reflexivity|]); simpl; now rewrite app_nil_r.
  - destruct fuel as [|fuel]; [lia|]. simpl. rewrite Hc, Hnone. simpl.
    destruct fuel; simpl; eexists; (split; [reflexivity|]);
      simpl; now rewrite app_nil_r.
  - destruct fuel as [|fuel]; [lia|]. simpl. rewrite Hc, Hnext. simpl.
    destruct (IH fuel (acc ++ AbstractWalker.getDescription subWalker_ prev c) c
                ltac:(lia)) as (st & Hst & Hds).
    exists st. split; [exact Hst|]. rewrite Hds. now rewrite <- app_assoc.
Qed.

(** X2.  For a selection that spans more than one node, [getDescription]
    syncs the sub-walker at the document-order start and then describes
    every structural line up to the one that ends at the document-order
    end, each against the line before it (the caller's previous selection
    before the first), in order and once each.  When the sub-walker runs
    out before that end is reached, the lines it did produce are
    described. *)
Theorem getDescription_describes_each_line
    (prevSel sel first : CursorSelection) (chain : list CursorSelection)
    (fuel : nat) :
  node (absStart sel) <> node (absEnd sel) ->
  AbstractWalker.sync subWalker_
    (newCursorSelection (absStart sel) (absStart sel) false) = Some first ->
  walk subWalker_ (absEnd sel) first chain ->
  (length chain <= fuel)%nat ->
  LayoutLineWalker.getDescription subWalker_ fuel prevSel sel
  = Normal (describeAll subWalker_ prevSel chain).
Proof.
  intros Hnodes Hsync Hwalk Hfuel.
  unfold LayoutLineWalker.getDescription, clone.
  assert (Hs : start (setReversed false sel) = absStart sel).
  { unfold absStart, setReversed. now destruct sel as [a e []]. }
  assert (He : end_ (setReversed false sel) = absEnd sel).
  { unfold absEnd, setReversed. now destruct sel as [a e []]. }
  rewrite Hs, He, Hsync.
  destruct (Nat.eqb_spec (node (absStart sel)) (node (absEnd sel)));
    [contradiction|].
  destruct (getDescription_loop_walk _ _ _ Hwalk fuel [] prevSel Hfuel)
    as (st & -> & Hds).
  simpl. destruct st as [[ds p] [l|]]; simpl in *; now rewrite Hds.
Qed.

End LayoutLineMore.

Lemma getDescription_describes_each_line_witness :
  LayoutLineWalker.getDescription walker3 2 (line 2 false)
    (newCursorSelection (mkCursor 0 0) (mkCursor 1 1) false)
  = Normal [0%nat; 1%nat].
Proof.
  apply (getDescription_describes_each_line walker3 (line 2 false)
           (newCursorSelection (mkCursor 0 0) (mkCursor 1 1) false)
           (line 0 false) [line 0 false; line 1 false] 2).
  - vm_compute. discriminate.
  - reflexivity.
  - apply walk_more with (line 1 false); [reflexivity | reflexivity |].
    apply walk_arrived. reflexivity.
  - simpl. lia.
Defined.

Lemma layout_line_has_one_bottom_witness :
  bottom3 (line 1 false) = bottom3 (line 0 false).
Proof.
  exact (layout_line_has_one_bottom walker3 bottom3 2 (line 0 false)
           (line 1 false) eq_refl).
Defined.

Section BrailleFacts.

Context {Description : Type}.
Variable subWalker_ : Walker Description NavBraille.
Variable bottom : CursorSelection -> Z.
Variable isInputTypeText isHTMLTextAreaElement : NodeRef -> bool.
Variable selectionStart selectionEnd : NodeRef -> Z.
Variable ITEM_SEPARATOR : string.

#[local] Abbreviation appendBraille :=
  (appendBraille_ subWalker_ isInputTypeText isHTMLTextAreaElement
     selectionStart selectionEnd ITEM_SEPARATOR).

Lemma length_append (a b : string) :
  String.length (a +:+ b) = (String.length a + String.length b)%nat.
Proof. induction a as [|c a IH]; simpl; [reflexivity | now rewrite IH]. Qed.

Lemma getLength_append (t : Spannable) (s : string) :
  getLength (append t s) = getLength t + Z.of_nat (String.length s).
Proof. unfold getLength, append. simpl. rewrite length_append. lia. Qed.

Lemma getLength_nonneg (t : Spannable) : 0 <= getLength t.
Proof. unfold getLength. lia. Qed.

Lemma appendBraille_text (prevSel : CursorSelection)
    (sel : option CursorSelection) (cur : CursorSelection) (b : NavBraille) :
  let item := text (AbstractWalker.getBraille subWalker_ prevSel cur) in
  let text1 := if 0 <? getLength (text b)
               then append (text b) ITEM_SEPARATOR else text b in
  text (appendBraille prevSel sel cur b)
  = setSpan (append text1 (toString item)) (NodeSpan (node (start cur)))
            (getLength text1) (getLength text1 + getLength item).
Proof.
  intros item text1. unfold appendBraille_. fold item. fold text1.
  destruct sel as [s|]; [|reflexivity].
  destruct (absEquals cur s); [|reflexivity].
  destruct (getSpanStart item VALUE_SPAN); [|reflexivity].
  destruct (_ || _); reflexivity.
Qed.

Lemma appendBraille_wellFormed (prevSel : CursorSelection)
    (sel : option CursorSelection) (cur : CursorSelection) (b : NavBraille) :
  wellFormedLine b -> wellFormedLine (appendBraille prevSel sel cur b).
Proof.
  intros [Hspans Hcursor]. split.
  - rewrite appendBraille_text. cbv zeta.
    set (item := text (AbstractWalker.getBraille subWalker_ prevSel cur)).
    set (text1 := if 0 <? getLength (text b)
                  then append (text b) ITEM_SEPARATOR else text b).
    assert (Hlen : getLength (text b) <= getLength text1).
    { subst text1. destruct (0 <? getLength (text b)); [|lia].
      rewrite getLength_append. lia. }
    assert (Hspans1 : spans text1 = spans (text b)).
    { subst text1. now destruct (0 <? getLength (text b)). }
    unfold spansWithinText, setSpan. simpl.
    assert (Hfinal : getLength
              {| chars := chars text1 +:+ toString item;
                 spans := spans text1 ++
                   [(NodeSpan (node (start cur)), getLength text1,
                     getLength text1 + getLength item)] |}
            = getLength text1 + getLength item).
    { unfold getLength, toString. simpl. rewrite length_append. lia. }
    rewrite Hfinal. apply Forall_app. split.
    + rewrite Hspans1. eapply Forall_impl; [exact Hspans|].
      intros sp (Hn & H0 & H1 & H2). pose proof (getLength_nonneg item).
      repeat split; try assumption. lia.
    + constructor; [|constructor]. simpl.
      pose proof (getLength_nonneg item). pose proof (getLength_nonneg text1).
      repeat split; try lia. now exists (node (start cur)).
  - unfold appendBraille_.
    destruct sel as [s|]; [|exact Hcursor].
    destruct (absEquals cur s); [|exact Hcursor].
    destruct (getSpanStart _ VALUE_SPAN); [destruct (_ || _)|];
      simpl; split; discriminate.
Qed.

Lemma getBraille_loop_wellFormed (fuel : nat) :
  forall (target : Cursor) (absSel : CursorSelection) (b : NavBraille)
         (prevSel : CursorSelection) (cur : option CursorSelection)
         (b' : NavBraille) (p : CursorSelection) (c : option CursorSelection),
    wellFormedLine b ->
    getBraille_loop subWalker_ isInputTypeText isHTMLTextAreaElement
      selectionStart selectionEnd ITEM_SEPARATOR fuel target absSel b
      prevSel cur = Normal (b', p, c) ->
    wellFormedLine b'.
Proof.
  induction fuel as [|fuel IH]; intros target absSel b prevSel cur b' p c Hb H;
    destruct cur as [x|]; cbn -[appendBraille_] in H;
    try (injection H as <- <- <-; exact Hb).
  - destruct (negb (equals (end_ x) target)); [discriminate|].
    injection H as <- <- <-. exact Hb.
  - destruct (negb (equals (end_ x) target)).
    + eapply IH; [|exact H]. now apply appendBraille_wellFormed.
    + injection H as <- <- <-. exact Hb.
Qed.

(** X3.  Whatever braille line [getBraille] returns, every span on it is
    the span of a node and lies inside the text, with its start not after
    its end; the value spans of the sub-walker's items are not carried
    over.  The cursor is either placed at both ends or not at all. *)
Theorem getBraille_line_is_well_formed
    (fuel : nat) (prevSel sel : CursorSelection) (b : NavBraille) :
  LayoutLineWalker.getBraille subWalker_ bottom isInputTypeText
    isHTMLTextAreaElement selectionStart selectionEnd ITEM_SEPARATOR
    fuel prevSel sel = Normal b ->
  spansWithinText (text b)
  /\ (startIndex b = None <-> endIndex b = None).
Proof.
  assert (Hnew : wellFormedLine newNavBraille).
  { split; [constructor | tauto]. }
  unfold LayoutLineWalker.getBraille. intros H.
  destruct (LayoutLineWalker.sync subWalker_ bottom fuel sel) as [[l|]| |];
    cbn -[appendBraille_] in H; try discriminate.
  destruct (AbstractWalker.sync subWalker_ (setReversed false (clone sel)))
    as [absSel|]; [|injection H as <-; exact Hnew].
  destruct (AbstractWalker.sync subWalker_ _) as [cur|];
    [|injection H as <-; exact Hnew].
  destruct (getBraille_loop _ _ _ _ _ _ _ _ _ _ _ _) as [[[b1 p] c]| |] eqn:Hloop;
    cbn -[appendBraille_] in H; try discriminate.
  pose proof (getBraille_loop_wellFormed _ _ _ _ _ _ _ _ _ Hnew Hloop) as Hb1.
  destruct c as [c|]; [|injection H as <-; exact Hb1].
  replace b with (appendBraille p (Some absSel) c b1) by congruence.
  now apply appendBraille_wellFormed.
Qed.

End BrailleFacts.

Lemma getBraille_line_is_well_formed_witness :
  spansWithinText
    {| chars := "line line";
       spans := [(NodeSpan 0%nat, 0, 4); (NodeSpan 1%nat, 5, 9)] |}.
Proof.
  apply (proj1 (getBraille_line_is_well_formed walker3 bottom3
                  (fun _ => false) (fun _ => false) (fun _ => 0) (fun _ => 0)
                  " " 5 (line 0 false)
                  (newCursorSelection (mkCursor 0 0) (mkCursor 1 1) false)
                  {| text := {| chars := "line line";
                                spans := [(NodeSpan 0%nat, 0, 4); (NodeSpan 1%nat, 5, 9)] |};
                     startIndex := Some 0; endIndex := Some 1 |}
                  eq_refl)).
Defined.

(** * Further properties of the user commands *)

Import GuardVocabulary.

(** ** Earcons *)

(** X4.  [playEarcons] queues at most one earcon for each changed
    ancestor.  For an ARIA control the role takes precedence: the earcon
    depends on the node's attributes only, not on its tag, type or checked
    state; for any other node the attributes play no part. *)
Theorem earcons_one_per_ancestor_role_first
    (isControlWidget isInputTypeText : Node -> bool) :
  (forall n : Node,
      (length (earconsFor isControlWidget isInputTypeText n) <= 1)%nat)
  /\ (forall ancestors : list Node,
        (length (concat (map (earconsFor isControlWidget isInputTypeText)
                             ancestors))
         <= length ancestors)%nat)
  /\ (forall n m : Node,
        isControlWidget n = true -> isControlWidget m = true ->
        attributes n = attributes m ->
        earconsFor isControlWidget isInputTypeText n
        = earconsFor isControlWidget isInputTypeText m)
  /\ (forall n m : Node,
        isControlWidget n = false -> isControlWidget m = false ->
        tagName n = tagName m -> type_ n = type_ m -> checked n = checked m ->
        isInputTypeText n = isInputTypeText m ->
        earconsFor isControlWidget isInputTypeText n
        = earconsFor isControlWidget isInputTypeText m).
Proof.
  assert (Hone : forall n : Node,
             (length (earconsFor isControlWidget isInputTypeText n) <= 1)%nat).
  { intros n. unfold earconsFor.
    repeat match goal with
           | |- context [if ?c then _ else _] => destruct c
           | |- context [match ?c with _ => _ end] => destruct c
           end; simpl; lia. }
  split; [exact Hone|]. split; [|split].
  - induction ancestors as [|n ancestors IH]; simpl; [lia|].
    rewrite length_app. specialize (Hone n). lia.
  - intros n m Hn Hm Hattr. unfold earconsFor, getAttribute.
    now rewrite Hn, Hm, Hattr.
  - intros n m Hn Hm Htag Htype Hchecked Htext.
    unfold earconsFor, tagIs, typeIs.
    now rewrite Hn, Hm, Htag, Htype, Hchecked, Htext.
Qed.

Lemma earcons_one_per_ancestor_role_first_witness :
  earconsFor (fun _ => true) (fun _ => false)
    (mkNode (Some "BUTTON") true {["role" := "checkbox"]} None false)
  = earconsFor (fun _ => true) (fun _ => false)
      (mkNode (Some "A") true {["role" := "checkbox"]} None true).
Proof.
  apply (proj1 (proj2 (proj2 (earcons_one_per_ancestor_role_first
                                (fun _ => true) (fun _ => false)))));
    reflexivity.
Defined.

Section SpeechFacts.

Context {NavState Description Predicate : Type}.
Variable nm : NavigationManager NavState Description Predicate.
Variable isControlWidget isInputTypeText : Node -> bool.

#[local] Abbreviation World := (World NavState Description Predicate).
#[local] Abbreviation Event := (Event Description Predicate).





End SpeechFacts.

(** ** The guard over whole commands and the event loop *)

Section GuardOverCommands.

Context {NavState Description Predicate : Type}.
Variable nm : NavigationManager NavState Description Predicate.
Variable isControlWidget isInputTypeText : Node -> bool.

#[local] Abbreviation World := (World NavState Description Predicate).
#[local] Abbreviation finish :=
  (finishNavCommand nm isControlWidget isInputTypeText).
#[local] Abbreviation forward := (forward nm isControlWidget isInputTypeText).
#[local] Abbreviation backward := (backward nm isControlWidget isInputTypeText).

(** [finishNavCommand] sets one timer, for the focus change, and leaves
    the guard and the clock alone. *)
Lemma finishNavCommand_rest (prefix : string) (w : World) :
  timers (finish prefix w) = timers w ++ [(clock w + 0, NavSetFocus)]
  /\ userCommandLevel_ (finish prefix w) = userCommandLevel_ w
  /\ clock (finish prefix w) = clock w.
Proof.
  unfold finishNavCommand, playEarcons.
  destruct (negb (String.eqb prefix "")); simpl;
    match goal with
    | |- context [fold_left ?f ?es ?w0] =>
        destruct (emitAll_rest (Description := Description)
                    (Predicate := Predicate) es w0) as (_ & -> & -> & ->)
    end;
    match goal with
    | |- context [speakDescriptions ?ds ?q ?w0] =>
        destruct (speakDescriptions_rest ds q w0) as (_ & -> & -> & ->)
    end; simpl; auto.
Qed.

Lemma forward_rest (w : World) :
  timers (forward w).2
  = timers w ++ [(clock w + 100, UserCommandLevelDown); (clock w + 0, NavSetFocus)]
  /\ userCommandLevel_ (forward w).2 = userCommandLevel_ w + 1
  /\ clock (forward w).2 = clock w.
Proof.
  unfold UserCommands.forward, navCall. simpl.
  destruct (nm_inTableMode nm _);
    [destruct (negb (nm_checkCellBoundaries nm _))|]; simpl;
    match goal with
    | |- context [finishNavCommand _ _ _ ?p ?w0] =>
        destruct (finishNavCommand_rest p w0) as (-> & -> & ->)
    end; simpl; rewrite <- ?app_assoc; auto.
Qed.

Lemma backward_rest (w : World) :
  timers (backward w).2
  = timers w ++ [(clock w + 100, UserCommandLevelDown); (clock w + 0, NavSetFocus)]
  /\ userCommandLevel_ (backward w).2 = userCommandLevel_ w + 1
  /\ clock (backward w).2 = clock w.
Proof.
  unfold UserCommands.backward, navCall. simpl.
  destruct (nm_inTableMode nm _);
    [destruct (negb (nm_checkCellBoundaries nm _))|]; simpl;
    match goal with
    | |- context [finishNavCommand _ _ _ ?p ?w0] =>
        destruct (finishNavCommand_rest p w0) as (-> & -> & ->)
    end; simpl; rewrite <- ?app_assoc; auto.
Qed.

Lemma pendingLevelDowns_app (a b : list (Z * Callback)) :
  pendingLevelDowns (a ++ b) = pendingLevelDowns a + pendingLevelDowns b.
Proof. induction a as [|t a IH]; simpl; [reflexivity | rewrite IH; lia]. Qed.

(** Taking the earliest timer out of the queue removes exactly that one. *)
Lemma earliest_spec (q : list (Z * Callback)) :
  match earliest q with
  | Some (t, rest) =>
      length q = S (length rest)
      /\ pendingLevelDowns q
         = (if isLevelDown t.2 then 1 else 0) + pendingLevelDowns rest
      /\ t ∈ q /\ (forall u, u ∈ rest -> u ∈ q)
      /\ (forall u, u ∈ q -> t.1 <= u.1)
  | None => q = []
  end.
Proof.
  induction q as [|t q IH]; simpl; [reflexivity|].
  destruct (earliest q) as [[u rest]|].
  - destruct IH as (Hlen & Hpend & Hin & Hsub & Hmin).
    destruct (Z.leb_spec t.1 u.1).
    + repeat split; try reflexivity.
      * left.
      * intros v Hv. now right.
      * intros v Hv. apply elem_of_cons in Hv as [->|Hv]; [lia|].
        specialize (Hmin v Hv). lia.
    + simpl. repeat split.
      * now rewrite Hlen.
      * rewrite Hpend. lia.
      * now right.
      * intros v Hv. apply elem_of_cons in Hv as [->|Hv]; [left|].
        right. now apply Hsub.
      * intros v Hv. apply elem_of_cons in Hv as [->|Hv]; [lia|].
        now apply Hmin.
  - subst q. repeat split; try reflexivity.
    + left.
    + intros v Hv. now apply elem_of_nil in Hv.
    + intros v Hv. apply elem_of_cons in Hv as [->|Hv]; [lia|].
      now apply elem_of_nil in Hv.
Qed.

Lemma runCallback_settled (cb : Callback) (w : World) :
  timers (runCallback nm cb w) = timers w
  /\ userCommandLevel_ (runCallback nm cb w)
     = userCommandLevel_ w - (if isLevelDown cb then 1 else 0).
Proof. destruct cb; simpl; split; try reflexivity; lia. Qed.

Lemma runTimers_settled (fuel : nat) (t : Z) :
  forall w : World, settledLevel (runTimers nm fuel t w) = settledLevel w.
Proof.
  induction fuel as [|fuel IH]; intros w; simpl; [reflexivity|].
  pose proof (earliest_spec (timers w)) as Hq.
  destruct (earliest (timers w)) as [[[due cb] rest]|]; [|reflexivity].
  destruct Hq as (_ & Hpend & _).
  destruct (due <=? t); [|reflexivity].
  rewrite IH. unfold settledLevel.
  destruct (runCallback_settled cb
              (mkWorld (nav w) (userCommandLevel_ w) due rest (trace w)))
    as (-> & ->).
  simpl in *. rewrite Hpend. lia.
Qed.

Lemma runTimers_drains (fuel : nat) (t : Z) :
  forall w : World,
    (length (timers w) <= fuel)%nat ->
    (forall u, u ∈ timers w -> u.1 <= t) ->
    timers (runTimers nm fuel t w) = [].
Proof.
  induction fuel as [|fuel IH]; intros w Hlen Hdue; simpl.
  - destruct (timers w); [reflexivity | simpl in Hlen; lia].
  - pose proof (earliest_spec (timers w)) as Hq.
    destruct (earliest (timers w)) as [[[due cb] rest]|]; [|exact Hq].
    destruct Hq as (Hl & _ & Hin & Hsub & _).
    specialize (Hdue _ Hin) as Hd. simpl in Hd.
    destruct (Z.leb_spec due t); [|lia].
    apply IH.
    + destruct (runCallback_settled cb
                  (mkWorld (nav w) (userCommandLevel_ w) due rest (trace w)))
        as (-> & _). simpl. lia.
    + destruct (runCallback_settled cb
                  (mkWorld (nav w) (userCommandLevel_ w) due rest (trace w)))
        as (-> & _). simpl. intros u Hu. apply Hdue. now apply Hsub.
Qed.

(** X6.  The guard cannot leak.  The level the guard will settle at, its
    current level less the decrements still waiting, is left unchanged by
    marking, by [finishNavCommand], by the forward and backward commands,
    by both search drivers (which mark twice when they find a match), and
    by the passing of time.  Once every timer has come due, the guard
    level is that settled level. *)
Theorem guard_settles_after_every_command (w : World) :
  settledLevel (markInUserCommand_ w) = settledLevel w
  /\ (forall prefix, settledLevel (finish prefix w) = settledLevel w)
  /\ settledLevel (forward w).2 = settledLevel w
  /\ settledLevel (backward w).2 = settledLevel w
  /\ (forall predicate errorStr,
        settledLevel (findNextAndSpeak_ nm isControlWidget isInputTypeText
                        predicate errorStr w) = settledLevel w
        /\ settledLevel (findPreviousAndSpeak_ nm isControlWidget
                           isInputTypeText predicate errorStr w)
           = settledLevel w)
  /\ (forall t, settledLevel (advanceTo nm t w) = settledLevel w)
  /\ (forall t, (forall u, u ∈ timers w -> u.1 <= t) ->
                timers (advanceTo nm t w) = []
                /\ userCommandLevel_ (advanceTo nm t w) = settledLevel w).
Proof.
  assert (Hfinish : forall prefix w0,
             settledLevel (finish prefix w0) = settledLevel w0).
  { intros prefix w0. unfold settledLevel.
    destruct (finishNavCommand_rest prefix w0) as (-> & -> & _).
    rewrite pendingLevelDowns_app. simpl. lia. }
  assert (Hforward : forall w0, settledLevel (forward w0).2 = settledLevel w0).
  { intros w0. unfold settledLevel.
    destruct (forward_rest w0) as (-> & -> & _).
    rewrite pendingLevelDowns_app. simpl. lia. }
  assert (Hadvance : forall t, settledLevel (advanceTo nm t w) = settledLevel w).
  { intros t. unfold advanceTo.
    rewrite <- (runTimers_settled (length (timers w)) t w).
    reflexivity. }
  split; [|split; [|split; [|split; [|split; [|split]]]]].
  - unfold settledLevel, markInUserCommand_. simpl.
    rewrite pendingLevelDowns_app. simpl. lia.
  - intros prefix. apply Hfinish.
  - apply Hforward.
  - unfold settledLevel. destruct (backward_rest w) as (-> & -> & _).
    rewrite pendingLevelDowns_app. simpl. lia.
  - intros predicate errorStr. split.
    + unfold findNextAndSpeak_, navCall. simpl.
      destruct (nm_findNext nm predicate (nav w)).1; simpl.
      * rewrite Hforward. unfold settledLevel. simpl.
        rewrite pendingLevelDowns_app. simpl. lia.
      * unfold settledLevel. simpl. rewrite pendingLevelDowns_app. simpl. lia.
    + unfold findPreviousAndSpeak_, navCall. simpl.
      destruct (nm_findPrevious nm predicate (nav w)).1; simpl.
      * rewrite Hforward. unfold settledLevel. simpl.
        rewrite pendingLevelDowns_app. simpl. lia.
      * unfold settledLevel. simpl. rewrite pendingLevelDowns_app. simpl. lia.
  - exact Hadvance.
  - intros t Hdue.
    assert (Hempty : timers (advanceTo nm t w) = []).
    { unfold advanceTo. simpl. now apply runTimers_drains. }
    split; [exact Hempty|].
    rewrite <- (Hadvance t). unfold settledLevel. rewrite Hempty. simpl. lia.
Qed.

End GuardOverCommands.

Lemma guard_settles_after_every_command_witness :
  let w := (UserCommands.forward LinearDocument.manager
              (fun _ => false) (fun _ => false)
              (LinearDocument.idle (LinearDocument.mkState 2 10 false 0 0))).2 in
  timers (advanceTo LinearDocument.manager 100 w) = []
  /\ userCommandLevel_ (advanceTo LinearDocument.manager 100 w) = settledLevel w.
Proof.
  intros w.
  apply (proj2 (proj2 (proj2 (proj2 (proj2 (proj2
           (guard_settles_after_every_command LinearDocument.manager
              (fun _ => false) (fun _ => false) w))))))).
  intros u Hu. vm_compute in Hu.
  repeat (apply elem_of_cons in Hu as [->|Hu]; [vm_compute; discriminate|]).
  now apply elem_of_nil in Hu.
Defined.

Section FocusUnderGuard.

Context {NavState Description Predicate : Type}.
Variable nm : NavigationManager NavState Description Predicate.
Variable isControlWidget isInputTypeText : Node -> bool.

#[local] Abbreviation World := (World NavState Description Predicate).

(** A world whose queue holds the decrement of one mark and the focus
    change of one [finishNavCommand], both set at time [c]. *)
Lemma advance_marked_and_finished (n : NavState) (l c t : Z)
    (tr : list (Event Description Predicate)) :
  let w : World :=
    mkWorld n l c [(c + 100, UserCommandLevelDown); (c + 0, NavSetFocus)] tr in
  (c <= t < c + 100 ->
   advanceTo nm t w
   = mkWorld (nm_setFocus nm n) l t [(c + 100, UserCommandLevelDown)]
             (tr ++ [NavSetFocusCall]))
  /\ (c + 100 <= t ->
      advanceTo nm t w
      = mkWorld (nm_setFocus nm n) (l - 1) t [] (tr ++ [NavSetFocusCall])).
Proof.
  intros w. subst w. unfold advanceTo. cbn [length timers runTimers earliest].
  cbn [fst snd]. simpl.
  destruct (Z.leb_spec (c + 100) (c + 0)); [lia|].
  split; intros Ht.
  - destruct (Z.leb_spec (c + 0) t); [|lia]. simpl.
    destruct (Z.leb_spec (c + 100) t); [lia|]. reflexivity.
  - destruct (Z.leb_spec (c + 0) t); [|lia]. simpl.
    destruct (Z.leb_spec (c + 100) t); [|lia]. reflexivity.
Qed.

(** X7.  The focus change that a forward or backward command defers runs
    inside the command's own guarded window.  From a world with no timer
    waiting, the focus change is made as soon as the command has
    returned, and at every time within 100 units of the command the guard
    level is still one above what it was; from 100 units on it is back
    where it was, and the focus change has been made exactly once. *)
Theorem deferred_focus_runs_under_guard (w : World) (t : Z) :
  timers w = [] ->
  let after (r : bool * World) :=
    (clock w <= t < clock w + 100 ->
     userCommandLevel_ (advanceTo nm t r.2) = userCommandLevel_ w + 1
     /\ trace (advanceTo nm t r.2) = trace r.2 ++ [NavSetFocusCall]
     /\ nav (advanceTo nm t r.2) = nm_setFocus nm (nav r.2))
    /\ (clock w + 100 <= t ->
        userCommandLevel_ (advanceTo nm t r.2) = userCommandLevel_ w
        /\ trace (advanceTo nm t r.2) = trace r.2 ++ [NavSetFocusCall]
        /\ timers (advanceTo nm t r.2) = []) in
  after (UserCommands.forward nm isControlWidget isInputTypeText w)
  /\ after (UserCommands.backward nm isControlWidget isInputTypeText w).
Proof.
  intros Hq after. subst after. cbv beta.
  split.
  - destruct (forward_rest nm isControlWidget isInputTypeText w)
      as (Htim & Hlev & Hclk).
    rewrite Hq in Htim. simpl in Htim.
    destruct (UserCommands.forward nm isControlWidget isInputTypeText w).2
      as [n l c q tr] eqn:E.
    cbn [timers userCommandLevel_ clock snd] in Htim, Hlev, Hclk. subst q l c.
    cbn [snd nav trace].
    split; intros Ht.
    + rewrite (proj1 (advance_marked_and_finished n _ _ t tr) Ht). simpl.
      repeat split.
    + rewrite (proj2 (advance_marked_and_finished n _ _ t tr) Ht). simpl.
      repeat split. lia.
  - destruct (backward_rest nm isControlWidget isInputTypeText w)
      as (Htim & Hlev & Hclk).
    rewrite Hq in Htim. simpl in Htim.
    destruct (UserCommands.backward nm isControlWidget isInputTypeText w).2
      as [n l c q tr] eqn:E.
    cbn [timers userCommandLevel_ clock snd] in Htim, Hlev, Hclk. subst q l c.
    cbn [snd nav trace].
    split; intros Ht.
    + rewrite (proj1 (advance_marked_and_finished n _ _ t tr) Ht). simpl.
      repeat split.
    + rewrite (proj2 (advance_marked_and_finished n _ _ t tr) Ht). simpl.
      repeat split. lia.
Qed.

End FocusUnderGuard.

Lemma deferred_focus_runs_under_guard_witness :
  let w := LinearDocument.idle (LinearDocument.mkState 2 10 false 0 0) in
  let r := UserCommands.forward LinearDocument.manager
             (fun _ => false) (fun _ => false) w in
  userCommandLevel_ (advanceTo LinearDocument.manager 0 r.2) = 1
  /\ trace (advanceTo LinearDocument.manager 0 r.2) = trace r.2 ++ [NavSetFocusCall].
Proof.
  intros w r.
  destruct (proj1 (proj1 (deferred_focus_runs_under_guard
                            LinearDocument.manager (fun _ => false)
                            (fun _ => false) w 0 eq_refl)))
    as (Hl & Ht & _).
  - simpl. lia.
  - split; [exact Hl | exact Ht].
Defined.

(** ** Commands that do not enter the guard *)

Section UnguardedCommands.

Context {NavState Description Predicate : Type}.
Variable nm : NavigationManager NavState Description Predicate.
Variable isControlWidget isInputTypeText : Node -> bool.
Variable nm_enterTable : NavState -> bool * NavState.
Variable nm_exitTable : NavState -> NavState.
Variable nm_previousRow nm_nextRow nm_previousCol nm_nextCol :
  NavState -> bool * NavState.
Variable nm_goToFirstCell nm_goToLastCell nm_goToRowFirstCell
         nm_goToRowLastCell nm_goToColFirstCell nm_goToColLastCell :
  NavState -> bool * NavState.
Variable nm_up nm_down : NavState -> NavState.
Variable nm_getStrategy nm_getGranularity : NavState -> string.

#[local] Abbreviation World := (World NavState Description Predicate).
#[local] Abbreviation commandTable :=
  (TableCommands.unguardedCommands nm isControlWidget isInputTypeText
     nm_enterTable nm_exitTable nm_previousRow nm_nextRow nm_previousCol
     nm_nextCol nm_goToFirstCell nm_goToLastCell nm_goToRowFirstCell
     nm_goToRowLastCell nm_goToColFirstCell nm_goToColLastCell
     nm_up nm_down nm_getStrategy nm_getGranularity).

Lemma advance_finished (n : NavState) (l c t : Z)
    (tr : list (Event Description Predicate)) :
  c <= t ->
  advanceTo nm t (mkWorld n l c [(c + 0, NavSetFocus)] tr)
  = mkWorld (nm_setFocus nm n) l t [] (tr ++ [NavSetFocusCall]).
Proof.
  intros Ht. unfold advanceTo. simpl.
  destruct (Z.leb_spec (c + 0) t); [reflexivity | lia].
Qed.

Lemma unguarded_rest (name : string) (cmd : World -> option bool * World)
    (w : World) :
  (name, cmd) ∈ commandTable ->
  userCommandLevel_ (cmd w).2 = userCommandLevel_ w
  /\ clock (cmd w).2 = clock w
  /\ (timers (cmd w).2 = timers w
      \/ timers (cmd w).2 = timers w ++ [(clock w + 0, NavSetFocus)]).
Proof.
  intros Hin. unfold TableCommands.unguardedCommands in Hin.
  repeat (apply elem_of_cons in Hin as [Hin|Hin];
          [injection Hin as -> ->;
           unfold TableCommands.previousGranularity,
             TableCommands.nextGranularity, TableCommands.speakCurrentPosition,
             TableCommands.nop, TableCommands.enterTable,
             TableCommands.exitTable, TableCommands.previousRow,
             TableCommands.nextRow, TableCommands.previousCol,
             TableCommands.nextCol, TableCommands.skipToBeginning,
             TableCommands.skipToEnd, TableCommands.skipToRowBeginning,
             TableCommands.skipToRowEnd, TableCommands.skipToColBeginning,
             TableCommands.skipToColEnd, TableCommands.call;
           repeat match goal with
                  | |- context [if ?c then _ else _] => destruct c
                  end;
           cbn [snd fst];
           try match goal with
               | |- context [finishNavCommand _ _ _ ?p ?w0] =>
                   destruct (finishNavCommand_rest nm isControlWidget
                               isInputTypeText p w0) as (-> & -> & ->)
               end;
           simpl; auto
          |]).
  now apply elem_of_nil in Hin.
Qed.

(** X8.  None of the granularity, position and table commands
    ([previousGranularity], [nextGranularity], [speakCurrentPosition],
    [nop], [enterTable], [exitTable], the four cell moves and the six
    skips) enters the user-command guard: the guard level and the clock
    are as before, and the only timer such a command can set is the focus
    change of [finishNavCommand].  So when no timer was waiting and the
    command did finish a navigation, the deferred focus change runs with
    the guard at the level it had before the command; unlike after
    [forward], [isInUserCommand] is then false unless some other command
    holds the guard. *)
Theorem table_commands_leave_guard_alone
    (name : string) (cmd : World -> option bool * World) (w : World) :
  (name, cmd) ∈ commandTable ->
  userCommandLevel_ (cmd w).2 = userCommandLevel_ w
  /\ clock (cmd w).2 = clock w
  /\ pendingLevelDowns (timers (cmd w).2) = pendingLevelDowns (timers w)
  /\ (timers w = [] ->
      timers (cmd w).2 = []
      \/ forall t, clock w <= t ->
           userCommandLevel_ (advanceTo nm t (cmd w).2) = userCommandLevel_ w
           /\ isInUserCommand (advanceTo nm t (cmd w).2) = isInUserCommand w
           /\ trace (advanceTo nm t (cmd w).2)
              = trace (cmd w).2 ++ [NavSetFocusCall]).
Proof.
  intros Hin. destruct (unguarded_rest name cmd w Hin) as (Hlev & Hclk & Htim).
  split; [exact Hlev|]. split; [exact Hclk|]. split.
  - destruct Htim as [-> | ->]; [reflexivity|].
    rewrite pendingLevelDowns_app. simpl. lia.
  - intros Hq. rewrite Hq in Htim. destruct Htim as [Htim|Htim]; [now left|].
    right. intros t Ht.
    destruct (cmd w).2 as [n l c q tr].
    cbn [userCommandLevel_ clock timers] in Hlev, Hclk, Htim. subst l c q.
    rewrite (advance_finished n _ _ t tr Ht). repeat split.
Qed.

End UnguardedCommands.

Lemma table_commands_leave_guard_alone_witness :
  let nextRow :=
    TableCommands.nextRow LinearDocument.manager (fun _ => false)
      (fun _ => false) GridDocument.rowDown in
  let w := LinearDocument.idle (LinearDocument.mkState 4 12 true 4 4) in
  userCommandLevel_ (nextRow w).2 = 0
  /\ isInUserCommand (advanceTo LinearDocument.manager 0 (nextRow w).2) = false.
Proof.
  intros nextRow w.
  destruct (table_commands_leave_guard_alone LinearDocument.manager
              (fun _ => false) (fun _ => false)
              GridDocument.enter GridDocument.leave
              GridDocument.rowUp GridDocument.rowDown
              GridDocument.colLeft GridDocument.colRight
              GridDocument.enter GridDocument.enter GridDocument.enter
              GridDocument.enter GridDocument.enter GridDocument.enter
              (fun s => s) (fun s => s) (fun _ => "OBJECT") (fun _ => "OBJECT")
              "nextRow" nextRow w)
    as (Hlev & _ & _ & Hfocus).
  - unfold TableCommands.unguardedCommands.
    do 7 apply list_elem_of_further. apply list_elem_of_here.
  - split; [exact Hlev|].
    destruct (Hfocus eq_refl) as [Hnone | Hrun]; [discriminate Hnone|].
    exact (proj1 (proj2 (Hrun 0 ltac:(simpl; lia)))).
Defined.

(** * Properties of the inter-frame messages *)

Section StringFacts.

Lemma prefix_append (p t : string) : String.prefix p (p +:+ t) = true.
Proof.
  induction p as [|c p IH]; simpl; [now destruct t|].
  destruct (Ascii.ascii_dec c c) as [_|Hne]; [exact IH | now destruct Hne].
Qed.

Lemma prefix_split (p s : string) :
  String.prefix p s = true -> exists t, s = p +:+ t.
Proof.
  revert s. induction p as [|c p IH]; intros s H.
  - now exists s.
  - destruct s as [|d s]; simpl in H; [discriminate|].
    destruct (Ascii.ascii_dec c d) as [->|_]; [|discriminate].
    destruct (IH s H) as [t ->]. now exists t.
Qed.

Lemma index_zero_prefix (p s : string) :
  String.index 0 p s = Some 0%nat <-> String.prefix p s = true.
Proof.
  destruct s as [|d s]; simpl.
  - destruct p; simpl; split; congruence.
  - destruct p as [|c p]; simpl; [tauto|].
    destruct (Ascii.ascii_dec c d) as [->|_].
    + destruct (String.prefix p s); [tauto|].
      destruct (String.index 0 (String d p) s); split; congruence.
    + destruct (String.index 0 (String c p) s); split; congruence.
Qed.

Lemma substring_all (t : string) : String.substring 0 (String.length t) t = t.
Proof. induction t as [|c t IH]; simpl; [reflexivity | now rewrite IH]. Qed.

Lemma substring_skip (p t : string) (m : nat) :
  String.substring (String.length p) m (p +:+ t) = String.substring 0 m t.
Proof. induction p as [|c p IH]; simpl; [reflexivity | exact IH]. Qed.

Lemma substr_append (p t : string) :
  Interframe.substr (String.length p) (p +:+ t) = t.
Proof.
  unfold Interframe.substr. rewrite substring_skip, length_append.
  replace (String.length p + String.length t - String.length p)%nat
    with (String.length t) by lia.
  apply substring_all.
Qed.

Lemma append_assoc (a b c : string) : (a +:+ b) +:+ c = a +:+ b +:+ c.
Proof.
  induction a as [|x a IH]; [reflexivity|].
  change (String x ((a +:+ b) +:+ c) = String x (a +:+ b +:+ c)).
  now rewrite IH.
Qed.

(** A non-empty string is found in anything that ends with it. *)
Lemma index_finds_suffix (a p : string) :
  p <> "" -> String.index 0 p (a +:+ p) <> None.
Proof.
  intros Hp Hnone.
  apply (String.index_correct3 0 (String.length a) p (a +:+ p) Hnone Hp);
    [lia|].
  rewrite substring_skip. apply substring_all.
Qed.

End StringFacts.

Import Interframe.

Section InterframeFacts.

Variable stringify : Message -> string.
Variable parse : string -> Outcome Parsed.
Variable encodeURI : string -> string.
Variable toStr : JsValue -> string.
Variable listenerThrows : Listener -> Parsed -> option Exception.

#[local] Abbreviation messageListener :=
  (messageListener parse listenerThrows).
#[local] Abbreviation called := (called listenerThrows).
#[local] Abbreviation thrown := (thrown listenerThrows).

Lemma callListeners_called (ls : list (option Listener)) (m : Parsed) :
  forall f : Frame,
    callListeners listenerThrows ls m f
    = (match thrown m ls with
       | Some e => Raised e
       | None => Returned tt
       end,
       mkFrame (id f) (listeners f)
               (delivered f ++ map (fun l => (l, m)) (called m ls))).
Proof.
  induction ls as [|[l|] ls IH]; intros f; simpl.
  - rewrite app_nil_r. now destruct f.
  - destruct (listenerThrows l m) as [e|]; [reflexivity|].
    rewrite IH. simpl. now rewrite <- app_assoc.
  - rewrite app_nil_r. now destruct f.
Qed.

Lemma called_reached (m : Parsed) (ls : list (option Listener)) :
  (forall l : Listener, l ∈ reached ls -> listenerThrows l m = None) ->
  called m ls = reached ls /\ thrown m ls = None.
Proof.
  induction ls as [|[l|] ls IH]; intros Hquiet; simpl; [easy| |easy].
  rewrite (Hquiet l) by (simpl; left).
  destruct IH as [-> ->]; [|easy].
  intros l' Hl'. apply Hquiet. simpl. now right.
Qed.

Lemma messageListener_prefix (suffix : string) (f : Frame) :
  messageListener (VString (IF_MSG_PREFIX +:+ suffix)) f
  = match parse suffix with
    | Raised e => (Raised e, f)
    | Returned (PValue VNull) | Returned (PValue VUndefined) =>
        (Raised (Engine TypeError), f)
    | Returned (PValue v) =>
        (ending (thrown (PValue v) (listeners f)),
         mkFrame (id f) (listeners f)
                 (delivered f ++ map (fun l => (l, PValue v))
                                     (called (PValue v) (listeners f))))
    | Returned (PObject m) =>
        (ending (thrown (PObject m) (listeners f)),
         mkFrame (if bool_decide (prop m "command" = VString SET_ID)
                  then prop m "id" else id f)
                 (listeners f)
                 (delivered f ++ map (fun l => (l, PObject m))
                                     (called (PObject m) (listeners f))))
    end.
Proof.
  unfold Interframe.messageListener, indexOf.
  rewrite bool_decide_eq_true_2
    by (apply index_zero_prefix, prefix_append).
  rewrite substr_append.
  destruct (parse suffix) as [[v|m]|e]; [| |reflexivity].
  - destruct v; cbn [read]; try reflexivity;
      rewrite bool_decide_eq_false_2 by discriminate;
      rewrite callListeners_called;
      destruct (thrown _ (listeners f)); now destruct f.
  - cbn [read].
    destruct (bool_decide (prop m "command" = VString SET_ID));
      cbn [listeners]; rewrite callListeners_called;
      destruct (thrown _ (listeners f)); now destruct f.
Qed.

(** X9.  The message listener acts on string data that starts with the
    inter-frame prefix and on nothing else: for any other data it
    returns [false] and the state is as it was.  For prefixed data it
    parses what follows the prefix.  When the parser throws, the listener
    throws the same and nothing has changed; when the parser returns
    [null], reading [message['command']] throws a [TypeError] and nothing
    has changed.  Otherwise it takes over the id when the message is an
    object whose command is the set-id command, and calls the listeners
    with the message in the order they were registered, up to the first
    entry that is not a function or the first listener that throws; it
    throws what that listener threw, and returns [false] when none
    did.  The list of listeners and the earlier deliveries are kept. *)
Theorem messageListener_takes_prefixed_strings_only
    (data : JsValue) (f : Frame) :
  (forall suffix : string,
      data = VString (IF_MSG_PREFIX +:+ suffix) ->
      (forall e : Exception,
          parse suffix = Raised e -> messageListener data f = (Raised e, f))
      /\ (parse suffix = Returned (PValue VNull) ->
          messageListener data f = (Raised (Engine TypeError), f))
      /\ (forall m : Message,
            parse suffix = Returned (PObject m) ->
            messageListener data f
            = (ending (thrown (PObject m) (listeners f)),
               mkFrame (if bool_decide (prop m "command" = VString SET_ID)
                        then prop m "id" else id f)
                       (listeners f)
                       (delivered f
                        ++ map (fun l => (l, PObject m))
                               (called (PObject m) (listeners f)))))
      /\ (forall v : JsValue,
            parse suffix = Returned (PValue v) ->
            v <> VNull -> v <> VUndefined ->
            messageListener data f
            = (ending (thrown (PValue v) (listeners f)),
               mkFrame (id f) (listeners f)
                       (delivered f
                        ++ map (fun l => (l, PValue v))
                               (called (PValue v) (listeners f))))))
  /\ ((forall suffix : string, data <> VString (IF_MSG_PREFIX +:+ suffix)) ->
      messageListener data f = (Returned false, f)).
Proof.
  split.
  - intros suffix ->. rewrite messageListener_prefix.
    split; [|split; [|split]].
    + now intros e ->.
    + now intros ->.
    + now intros m ->.
    + intros v -> Hnull Hundef. now destruct v.
  - intros Hforeign. unfold Interframe.messageListener, indexOf.
    destruct data as [| | | |s]; try reflexivity.
    destruct (bool_decide_reflect
                (String.index 0 IF_MSG_PREFIX s = Some 0%nat)) as [Hp|_];
      [|reflexivity].
    apply index_zero_prefix, prefix_split in Hp as [t ->].
    now destruct (Hforeign t).
Qed.

(** X10.  The id handshake.  When JSON parsing undoes JSON printing on
    the two messages exchanged and the parent can reach the iframe's
    window, the id the parent sends with [sendIdToIFrame] becomes the
    child's id once the child's message listener has handled what was
    posted, whether or not a listener of the child throws; a reply the
    child then sends with [sendMessageToParentWindow] is tagged with that
    id, and the listeners of the parent are called with the reply, its
    [sourceId] equal to the id the parent assigned: all those registered
    before the first entry that is not a function when none of them
    throws, and otherwise those up to the first that throws. *)
Theorem id_handshake_tags_replies
    (newId : JsValue) (iframe : IFrame) (childWindow : Window)
    (cw parentRef : WindowRef) (child parentFrame : Frame) (reply : Message) :
  let setId : Message := {["command" := VString SET_ID; "id" := newId]} in
  let tagged : Message := <["sourceId" := newId]> reply in
  parse (stringify setId) = Returned (PObject setId) ->
  parse (stringify tagged) = Returned (PObject tagged) ->
  contentWindow iframe = Some cw ->
  parent childWindow = Some parentRef ->
  parentRef <> self childWindow ->
  exists d1 d2 : string,
    sendIdToIFrame stringify encodeURI toStr true newId iframe
    = ([PostMessage cw d1], iframe)
    /\ id (messageListener (VString d1) child).2 = newId
    /\ sendMessageToParentWindow stringify encodeURI childWindow
         (messageListener (VString d1) child).2 reply
       = ([PostMessage parentRef d2], <["sourceId" := newId]> reply)
    /\ delivered (messageListener (VString d2) parentFrame).2
       = delivered parentFrame
         ++ map (fun l => (l, PObject (<["sourceId" := newId]> reply)))
                (called (PObject (<["sourceId" := newId]> reply))
                        (listeners parentFrame))
    /\ ((forall l : Listener,
            l ∈ reached (listeners parentFrame) ->
            listenerThrows l (PObject (<["sourceId" := newId]> reply)) = None) ->
        (messageListener (VString d2) parentFrame).1 = Returned false
        /\ delivered (messageListener (VString d2) parentFrame).2
           = delivered parentFrame
             ++ map (fun l => (l, PObject (<["sourceId" := newId]> reply)))
                    (reached (listeners parentFrame))).
Proof.
  intros setId tagged Hjson1 Hjson2 Hcw Hparent Hne. subst tagged.
  exists (IF_MSG_PREFIX +:+ stringify setId).
  exists (IF_MSG_PREFIX +:+ stringify (<["sourceId" := newId]> reply)).
  assert (Hchild :
            (messageListener (VString (IF_MSG_PREFIX +:+ stringify setId))
                             child).2
            = mkFrame newId (listeners child)
                (delivered child
                 ++ map (fun l => (l, PObject setId))
                        (called (PObject setId) (listeners child)))).
  { rewrite messageListener_prefix, Hjson1. reflexivity. }
  split; [|split; [|split; [|split]]].
  - unfold sendIdToIFrame, sendMessageToIFrame. now rewrite Hcw.
  - now rewrite Hchild.
  - rewrite Hchild. unfold sendMessageToParentWindow, isIframe. simpl.
    rewrite Hparent.
    rewrite bool_decide_eq_false_2 by congruence. reflexivity.
  - rewrite messageListener_prefix, Hjson2. reflexivity.
  - intros Hquiet. rewrite messageListener_prefix, Hjson2.
    destruct (called_reached _ _ Hquiet) as [-> ->]. now split.
Qed.

(** X11.  When [sendMessageToIFrame] can use neither the iframe's window
    nor its id, it tags the iframe with the class name for the message's
    id: afterwards the class attribute contains that name, and sending
    again changes nothing more, so the name is never added twice. *)
Theorem sendMessageToIFrame_tags_once
    (allow : bool) (message : Message) (iframe : IFrame) :
  (if allow then contentWindow iframe else None) = None ->
  (if foundById iframe then idAttribute iframe else None) = None ->
  let sent := sendMessageToIFrame stringify encodeURI toStr allow message iframe in
  indexOf (className sent.2) ("cvox_iframe" +:+ toStr (prop message "id"))
  <> None
  /\ sendMessageToIFrame stringify encodeURI toStr allow message sent.2 = sent.
Proof.
  intros Hwin Hid sent. subst sent. unfold sendMessageToIFrame.
  rewrite Hwin, Hid. cbn [snd contentWindow idAttribute foundById className].
  rewrite Hwin, Hid.
  set (styleName := "cvox_iframe" +:+ toStr (prop message "id")).
  assert (Hne : styleName <> "") by discriminate.
  assert (Hself : indexOf styleName styleName <> None).
  { unfold indexOf. pose proof (index_finds_suffix "" styleName Hne) as H.
    exact H. }
  destruct (String.eqb_spec (className iframe) "") as [Hempty|Hfull].
  - split; [exact Hself|].
    destruct (String.eqb_spec styleName ""); [contradiction|].
    rewrite bool_decide_eq_false_2 by exact Hself. reflexivity.
  - destruct (bool_decide_reflect
                (indexOf (className iframe) styleName = None)) as [Hnone|Hsome].
    + assert (Hfound : indexOf (className iframe +:+ " " +:+ styleName)
                               styleName <> None).
      { unfold indexOf.
        rewrite <- append_assoc. now apply index_finds_suffix. }
      split; [exact Hfound|].
      destruct (String.eqb_spec (className iframe +:+ " " +:+ styleName) "")
        as [Hbad|_].
      * destruct (className iframe); discriminate.
      * rewrite bool_decide_eq_false_2 by exact Hfound. reflexivity.
    + split; [exact Hsome|].
      destruct (String.eqb_spec (className iframe) ""); [contradiction|].
      rewrite bool_decide_eq_false_2 by exact Hsome.
      now destruct iframe.
Qed.

End InterframeFacts.

Lemma messageListener_takes_prefixed_strings_only_witness :
  let throws := fun (l : Listener) (_ : Parsed) =>
                  if (l =? 5)%nat then Some (Thrown 1) else None in
  let parse := fun s : string =>
                 if String.eqb s "null" then Returned (PValue VNull)
                 else if String.eqb s "{}"
                 then Returned (PObject {["command" := VString "hello"]})
                 else Raised (Thrown 0) in
  let f := mkFrame VUndefined [Some 4%nat; Some 5%nat; Some 6%nat] [] in
  messageListener parse throws (VString "cvox.INTERFRAME:null") f
  = (Raised (Engine TypeError), f)
  /\ messageListener parse throws (VString "cvox.INTERFRAME:{}") f
     = (Raised (Thrown 1),
        mkFrame VUndefined [Some 4%nat; Some 5%nat; Some 6%nat]
          [(4%nat, PObject {["command" := VString "hello"]});
           (5%nat, PObject {["command" := VString "hello"]})]).
Proof.
  intros throws parse f. split.
  - exact (proj1 (proj2 (proj1 (messageListener_takes_prefixed_strings_only
                                  parse throws
                                  (VString "cvox.INTERFRAME:null") f)
                               "null" eq_refl)) eq_refl).
  - exact (proj1 (proj2 (proj2 (proj1
                    (messageListener_takes_prefixed_strings_only
                       parse throws (VString "cvox.INTERFRAME:{}") f)
                    "{}" eq_refl)))
             {["command" := VString "hello"]} eq_refl).
Defined.

Lemma id_handshake_tags_replies_witness :
  let setId : Message := {["command" := VString SET_ID; "id" := VNumber 7]} in
  let reply : Message := {["command" := VString "ready"]} in
  let stringify := fun m : Message => if decide (m = setId) then "S" else "R" in
  let parse := fun s : string =>
                 if decide (s = "S") then Returned (PObject setId)
                 else Returned (PObject (<["sourceId" := VNumber 7]> reply)) in
  exists d2 : string,
    delivered (messageListener parse (fun _ _ => None) (VString d2)
                 (mkFrame VUndefined [Some 1%nat] [])).2
    = [(1%nat, PObject (<["sourceId" := VNumber 7]> reply))].
Proof.
  intros setId reply stringify parse.
  destruct (id_handshake_tags_replies stringify parse (fun s => s)
              (fun _ => "7") (fun _ _ => None) (VNumber 7)
              (mkIFrame (Some 2%nat) None false "") (mkWindow 2%nat (Some 1%nat))
              2%nat 1%nat (mkFrame VUndefined [] [])
              (mkFrame VUndefined [Some 1%nat] []) reply)
    as (d1 & d2 & _ & _ & _ & Hdelivered & _).
  - vm_compute. reflexivity.
  - vm_compute. reflexivity.
  - reflexivity.
  - reflexivity.
  - discriminate.
  - exists d2. exact Hdelivered.
Defined.

Lemma sendMessageToIFrame_tags_once_witness :
  let sent := sendMessageToIFrame (fun _ => "{}") (fun s => s) (fun _ => "7")
                true {["id" := VNumber 7]} (mkIFrame None None false "wide") in
  className sent.2 = "wide cvox_iframe7"
  /\ sendMessageToIFrame (fun _ => "{}") (fun s => s) (fun _ => "7")
       true {["id" := VNumber 7]} sent.2 = sent.
Proof.
  intros sent. split; [reflexivity|].
  exact (proj2 (sendMessageToIFrame_tags_once (fun _ => "{}") (fun s => s)
                  (fun _ => "7") true {["id" := VNumber 7]}
                  (mkIFrame None None false "wide") eq_refl eq_refl)).
Defined.

(** * Properties of the keyboard handler *)

Import KbHandler.

Section KbHandlerFacts.

Context {Host KeyEvent KeySequence KeyMap Target : Type}.
Variable keyCode : KeyEvent -> Z.
Variable cvoxModifier : KeySequence -> bool.
Variable isActive entireDocumentIsHidden sequencing : Host -> bool.
Variable activeElement : Host -> option ActiveElement.
Variable handlerKeyMap : Host -> option KeyMap.
Variable isInternalLink : ActiveElement -> bool.
Variable getElementById : Host -> option string -> option Target.
Variable getElementsByName : Host -> option string -> list Target.
Variable keyEventToKeySequence : KeyEvent -> Host -> KeySequence * Host.
Variable commandForKey : KeyMap -> KeySequence -> option string.
Variable stopReading : bool -> Host -> Host.
Variable enterUserCommand exitUserCommand : string -> Host -> Host.
Variable updateSelToArbitraryNode : Target -> Host -> Host.
Variable finishNavCommand : string -> Host -> Host.
Variable commands : string -> option (Host -> Outcome (option bool) * Host).

#[local] Abbreviation listener :=
  (basicKeyDownActionsListener keyCode cvoxModifier isActive
     entireDocumentIsHidden sequencing activeElement handlerKeyMap
     isInternalLink getElementById getElementsByName keyEventToKeySequence
     commandForKey stopReading enterUserCommand exitUserCommand
     updateSelToArbitraryNode finishNavCommand commands).

(** The function name the key map gives for the event, if it is truthy. *)
#[local] Abbreviation boundName := (fun (evt : KeyEvent) (h : Host) =>
  let ks := keyEventToKeySequence evt h in
  truthyName match handlerKeyMap ks.2 with
             | Some map => commandForKey map ks.1
             | None => None
             end).


(** X13.  While ChromeVox is not active, a key bound to anything but
    [toggleChromeVox] runs no command and does not stop reading: the only
    call is the conversion of the event to a key sequence, and the
    default action is allowed.  An unbound key is let through unless a key
    sequence is in progress. *)
Theorem inactive_runs_only_the_toggle (evt : KeyEvent) (p : Page (Host := Host)) :
  let ks := keyEventToKeySequence evt (host p) in
  isActive (host p) = false ->
  isActive ks.2 = false ->
  boundName evt (host p) <> Some "toggleChromeVox" ->
  listener evt p
  = (Returned (Some (match boundName evt (host p) with
                     | Some _ => true
                     | None => negb (sequencing ks.2)
                     end)),
     mkPage ks.2 (calls p ++ [KeyEventToKeySequence])).
Proof.
  intros ks Hbefore Hafter Hname. subst ks.
  unfold basicKeyDownActionsListener. rewrite Hbefore, andb_false_r.
  cbn [host calls] in *.
  destruct (truthyName _) as [name|]; [|reflexivity].
  rewrite Hafter. simpl.
  destruct (String.eqb_spec name "toggleChromeVox") as [->|_];
    [now destruct Hname | reflexivity].
Qed.

(** X14.  The Enter key while ChromeVox is active.  With no active
    element the listener throws, although [mustPassEnterKey] itself
    answers [false] there.  On an element that takes the Enter key (and
    is not an internal link with a target to sync to) the key is passed
    to the browser and nothing else happens: no call is made, the key map
    is not consulted. *)
Theorem enter_key_on_focused_element (evt : KeyEvent) (p : Page (Host := Host)) :
  keyCode evt = 13 ->
  isActive (host p) = true ->
  (activeElement (host p) = None ->
   listener evt p = (Raised (Engine TypeError), p)
   /\ mustPassEnterKey activeElement isInternalLink p = false)
  /\ (forall a : ActiveElement,
        activeElement (host p) = Some a ->
        internalLinkTarget isInternalLink getElementById getElementsByName a p
        = None ->
        mustPassEnterKey activeElement isInternalLink p = true ->
        listener evt p = (Returned (Some true), p)).
Proof.
  intros Hkey Hactive. unfold basicKeyDownActionsListener.
  rewrite Hkey, Hactive. simpl. split.
  - intros Hnone. unfold mustPassEnterKey. now rewrite Hnone.
  - intros a Ha Htarget Hpass. now rewrite Ha, Htarget, Hpass.
Qed.


End KbHandlerFacts.


Lemma inactive_runs_only_the_toggle_witness :
  SampleKeys.listener 74 (mkPage (SampleKeys.mkHost false false None) [])
  = (Returned (Some true),
     mkPage (SampleKeys.mkHost false false None) [KeyEventToKeySequence]).
Proof.
  apply (inactive_runs_only_the_toggle
           (fun k : Z => k) (fun _ : Z => false) SampleKeys.active
           SampleKeys.hidden (fun _ => false) SampleKeys.focusedElement
           (fun _ => Some tt) (fun _ => false)
           (fun _ _ => @None unit) (fun _ _ => [])
           (fun k h => (k, h)) SampleKeys.commandForKey
           (fun _ h => h) (fun _ h => h) (fun _ h => h) (fun _ h => h)
           (fun _ h => h) SampleKeys.commands
           74 (mkPage (SampleKeys.mkHost false false None) []));
    [reflexivity | reflexivity | vm_compute; discriminate].
Defined.

Lemma enter_key_on_focused_element_witness :
  SampleKeys.listener 13
    (mkPage (SampleKeys.mkHost true false (Some SampleKeys.inputBox)) [])
  = (Returned (Some true),
     mkPage (SampleKeys.mkHost true false (Some SampleKeys.inputBox)) [])
  /\ SampleKeys.listener 13 (mkPage (SampleKeys.mkHost true false None) [])
     = (Raised (Engine TypeError),
        mkPage (SampleKeys.mkHost true false None) []).
Proof.
  split.
  - apply (proj2 (enter_key_on_focused_element
             (fun k : Z => k) (fun _ : Z => false) SampleKeys.active
             SampleKeys.hidden (fun _ => false) SampleKeys.focusedElement
             (fun _ => Some tt) (fun _ => false)
             (fun _ _ => @None unit) (fun _ _ => [])
             (fun k h => (k, h)) SampleKeys.commandForKey
             (fun _ h => h) (fun _ h => h) (fun _ h => h) (fun _ h => h)
             (fun _ h => h) SampleKeys.commands
             13 (mkPage (SampleKeys.mkHost true false (Some SampleKeys.inputBox)) [])
             eq_refl eq_refl) SampleKeys.inputBox);
      reflexivity.
  - apply (proj1 (enter_key_on_focused_element
             (fun k : Z => k) (fun _ : Z => false) SampleKeys.active
             SampleKeys.hidden (fun _ => false) SampleKeys.focusedElement
             (fun _ => Some tt) (fun _ => false)
             (fun _ _ => @None unit) (fun _ _ => [])
             (fun k h => (k, h)) SampleKeys.commandForKey
             (fun _ h => h) (fun _ h => h) (fun _ h => h) (fun _ h => h)
             (fun _ h => h) SampleKeys.commands
             13 (mkPage (SampleKeys.mkHost true false None) [])
             eq_refl eq_refl)).
    reflexivity.
Defined.


(** ** The sorted key bindings *)

Lemma Sorted_weaken {A : Type} (R S : relation A) (l : list A) :
  (forall x y, R x y -> S x y) -> Sorted R l -> Sorted S l.
Proof.
  intros HRS. induction 1 as [|x l _ IH Hhd]; constructor; [exact IH|].
  destruct Hhd; constructor. now apply HRS.
Qed.

(** X16.  When [localeCompare] orders any two key bindings one way or the
    other, [sortKeyToFunctionsTable_] returns the entries of the table,
    each once, ordered by [compareKeyStr]; in particular no key binding
    comes after a longer one, so the bindings of single keys come before
    those of several keys. *)
Theorem key_bindings_sorted_by_length
    (localeCompare : string -> string -> Z) (table : list (string * string)) :
  (forall a b : string, localeCompare a b <= 0 \/ localeCompare b a <= 0) ->
  let sorted := sortKeyToFunctionsTable_ localeCompare table in
  sorted ≡ₚ table
  /\ Sorted (keyOrder localeCompare) sorted
  /\ StronglySorted
       (fun a b => (String.length a.1 <= String.length b.1)%nat) sorted.
Proof.
  intros Htotal sorted. subst sorted. unfold sortKeyToFunctionsTable_.
  assert (Total (keyOrder localeCompare)) as Htot.
  { intros a b. unfold keyOrder, compareKeyStr.
    destruct (Nat.ltb_spec (String.length a.1) (String.length b.1));
      [left; lia|].
    destruct (Nat.ltb_spec (String.length b.1) (String.length a.1));
      [right|].
    - destruct (Nat.ltb_spec (String.length a.1) (String.length b.1)); lia.
    - destruct (Nat.ltb_spec (String.length a.1) (String.length b.1)); [lia|].
      apply Htotal. }
  split; [apply merge_sort_Permutation|].
  pose proof (Sorted_merge_sort (keyOrder localeCompare) table) as Hsorted.
  split; [exact Hsorted|].
  apply Sorted_StronglySorted.
  - intros a b c Hab Hbc. lia.
  - eapply Sorted_weaken; [|exact Hsorted].
    intros a b. unfold keyOrder, compareKeyStr.
    destruct (Nat.ltb_spec (String.length a.1) (String.length b.1)); [lia|].
    destruct (Nat.ltb_spec (String.length b.1) (String.length a.1)); lia.
Qed.

Lemma codeCompare_total (a b : string) :
  SampleKeys.codeCompare a b <= 0 \/ SampleKeys.codeCompare b a <= 0.
Proof.
  unfold SampleKeys.codeCompare. rewrite (String.compare_antisym a b).
  destruct (String.compare b a); simpl; lia.
Qed.

Lemma key_bindings_sorted_by_length_witness :
  sortKeyToFunctionsTable_ SampleKeys.codeCompare
    [("Cvox+L>H", "nextHeading"); ("Cvox+J", "forward"); ("#9", "handleTab")]
  ≡ₚ [("Cvox+L>H", "nextHeading"); ("Cvox+J", "forward"); ("#9", "handleTab")].
Proof.
  exact (proj1 (key_bindings_sorted_by_length SampleKeys.codeCompare
                  [("Cvox+L>H", "nextHeading"); ("Cvox+J", "forward");
                   ("#9", "handleTab")]
                  codeCompare_total)).
Defined.

(** * Properties of the tab command *)

Import HandleTab.

Section HandleTabFacts.

Variable tagName : NodeRef -> option string.
Variable parentNode : NodeRef -> option NodeRef.
Variable activeElement : option NodeRef.
Variable previousDummySpan : bool.
Variable getSelection : option DomSelection.
Variable isControl : NodeRef -> bool.

#[local] Abbreviation run :=
  (handleTab tagName parentNode activeElement previousDummySpan getSelection
     isControl).

#[local] Abbreviation cleanUp :=
  ([TtsStop] ++ (if previousDummySpan then [RemoveDummySpan] else [])
   ++ [SearchHide]).

Lemma handleTab_shape (effects : list Effect) (r : bool) :
  run = Normal (effects, r) ->
  r = true
  /\ (effects = cleanUp
      \/ (exists n, effects = cleanUp ++ [Focus n])
      \/ (exists n, effects = cleanUp ++ [InsertDummySpanBefore n; FocusDummySpan])).
Proof.
  unfold handleTab. intros H.
  assert (Hclean :
            (if previousDummySpan then [TtsStop] ++ [RemoveDummySpan]
             else [TtsStop]) ++ [SearchHide] = cleanUp)
    by now destruct previousDummySpan.
  rewrite Hclean in H. clear Hclean.
  destruct activeElement as [active|]; [|discriminate].
  destruct (_ || _); [injection H as <- <-; auto|].
  destruct getSelection as [[[anchor|] [focus|]]|];
    cbn [anchorNode focusNode] in H;
    try (injection H as <- <-; auto; fail).
  destruct (linkOr _ anchor _); [injection H as <- <-; eauto|].
  destruct (linkOr _ focus _); [injection H as <- <-; eauto|].
  destruct (parentNode anchor) as [ap|]; [|discriminate].
  destruct (linkOr _ ap _); [injection H as <- <-; eauto|].
  destruct (parentNode focus) as [fp|]; [|discriminate].
  destruct (linkOr _ fp _); injection H as <- <-; eauto.
Qed.

(** X17.  Whenever the tab command returns, it returns [true], and it has
    given the focus to at most one thing.  It inserts a dummy span only
    to give that span the focus, and when the active element is already a
    link or a control it neither moves the focus nor inserts anything:
    it only stops speech, removes the span of an earlier run and hides
    the search widget. *)
Theorem handleTab_moves_focus_at_most_once (effects : list Effect) (r : bool) :
  run = Normal (effects, r) ->
  r = true
  /\ (length (focusChanges effects) <= 1)%nat
  /\ (forall n, InsertDummySpanBefore n ∈ effects ->
                focusChanges effects = [FocusDummySpan])
  /\ (forall active, activeElement = Some active ->
        bool_decide (tagName active = Some "A") || isControl active = true ->
        effects = cleanUp).
Proof.
  intros H. destruct (handleTab_shape effects r H) as (Hr & Hshape).
  split; [exact Hr|]. split; [|split].
  - destruct Hshape as [-> | [[n ->] | [n ->]]];
      destruct previousDummySpan; simpl; lia.
  - intros n Hin.
    destruct Hshape as [-> | [[m ->] | [m ->]]].
    + destruct previousDummySpan; simpl in Hin;
        repeat (apply elem_of_cons in Hin as [Hin|Hin]; [discriminate|]);
        now apply elem_of_nil in Hin.
    + apply elem_of_app in Hin as [Hin|Hin].
      * destruct previousDummySpan; simpl in Hin;
          repeat (apply elem_of_cons in Hin as [Hin|Hin]; [discriminate|]);
          now apply elem_of_nil in Hin.
      * apply elem_of_cons in Hin as [Hin|Hin]; [discriminate|].
        now apply elem_of_nil in Hin.
    + now destruct previousDummySpan.
  - intros active Hactive Hlink. unfold handleTab in H.
    rewrite Hactive, Hlink in H. injection H as <- _.
    now destruct previousDummySpan.
Qed.

(** X18.  The last test of the tab command looks at the focus node where
    the three before it look at the node they are about to focus.  So
    when the selection's focus node is an element that is neither a link
    nor a control, and neither the anchor nor the anchor's parent is
    one, the focus node's parent gets the focus only if it is a link: a
    parent that is a control is passed over, and the dummy span is
    inserted instead. *)
Theorem handleTab_passes_over_control_parent
    (active anchor focus anchorParent focusParent : NodeRef) (t : string) :
  activeElement = Some active ->
  bool_decide (tagName active = Some "A") || isControl active = false ->
  getSelection = Some (mkDomSelection (Some anchor) (Some focus)) ->
  linkOr tagName anchor (isControl anchor) = false ->
  tagName focus = Some t -> t <> "" ->
  linkOr tagName focus (isControl focus) = false ->
  parentNode anchor = Some anchorParent ->
  linkOr tagName anchorParent (isControl anchorParent) = false ->
  parentNode focus = Some focusParent ->
  tagName focusParent <> Some "A" ->
  run = Normal (cleanUp ++ [InsertDummySpanBefore anchor; FocusDummySpan], true).
Proof.
  intros Hactive Hnot Hsel Hanchor Htag Ht Hfocus Hap Hapno Hfp Hfptag.
  assert (Hctl : isControl focus = false).
  { unfold linkOr in Hfocus. rewrite Htag in Hfocus.
    destruct (String.eqb_spec t ""); [contradiction|].
    simpl in Hfocus. now apply orb_false_elim in Hfocus as [_ ?]. }
  assert (Hlast : linkOr tagName focusParent (isControl focus) = false).
  { unfold linkOr. rewrite Hctl.
    destruct (tagName focusParent) as [u|]; [|reflexivity].
    destruct (String.eqb_spec u "A") as [->|_]; [now destruct Hfptag|].
    now rewrite orb_false_r, andb_false_r. }
  unfold handleTab.
  rewrite Hactive, Hnot, Hsel. cbn [anchorNode focusNode].
  rewrite Hanchor, Hfocus, Hap, Hapno, Hfp, Hlast.
  now destruct previousDummySpan.
Qed.

End HandleTabFacts.

Lemma handleTab_moves_focus_at_most_once_witness :
  let tagName := fun n : NodeRef =>
                   match n with
                   | 1%nat => Some "P" | 2%nat => Some "SPAN"
                   | 3%nat => Some "BUTTON" | _ => Some "BODY"
                   end in
  let parentNode := fun n : NodeRef =>
                      match n with
                      | 2%nat => Some 3%nat
                      | _ => Some 0%nat
                      end in
  let isControl := fun n : NodeRef => (n =? 3)%nat in
  focusChanges [TtsStop; RemoveDummySpan; SearchHide;
                InsertDummySpanBefore 1%nat; FocusDummySpan]
  = [FocusDummySpan].
Proof.
  intros tagName parentNode isControl.
  apply (proj1 (proj2 (proj2 (handleTab_moves_focus_at_most_once
                                tagName parentNode (Some 0%nat) true
                                (Some (mkDomSelection (Some 1%nat) (Some 2%nat)))
                                isControl _ true eq_refl))) 1%nat).
  do 3 apply list_elem_of_further. apply list_elem_of_here.
Defined.

Lemma handleTab_passes_over_control_parent_witness :
  let tagName := fun n : NodeRef =>
                   match n with
                   | 1%nat => Some "P" | 2%nat => Some "SPAN"
                   | 3%nat => Some "BUTTON" | _ => Some "BODY"
                   end in
  let parentNode := fun n : NodeRef =>
                      match n with
                      | 2%nat => Some 3%nat
                      | _ => Some 0%nat
                      end in
  let isControl := fun n : NodeRef => (n =? 3)%nat in
  handleTab tagName parentNode (Some 0%nat) false
    (Some (mkDomSelection (Some 1%nat) (Some 2%nat))) isControl
  = Normal ([TtsStop; SearchHide; InsertDummySpanBefore 1%nat; FocusDummySpan],
            true).
Proof.
  intros tagName parentNode isControl.
  apply (handleTab_passes_over_control_parent tagName parentNode
           (Some 0%nat) false
           (Some (mkDomSelection (Some 1%nat) (Some 2%nat))) isControl
           0%nat 1%nat 2%nat 0%nat 3%nat "SPAN");
    try reflexivity; discriminate.
Defined.

(** * Further properties of the predicates *)

Lemma scanForward_none (test : Node -> bool) (nodes : list Node) :
  scanForward test nodes = None <-> forall n, n ∈ nodes -> test n = false.
Proof.
  induction nodes as [|m nodes IH]; simpl.
  - split; [|reflexivity]. intros _ n Hn. now apply elem_of_nil in Hn.
  - destruct (test m) eqn:Hm.
    + split; [discriminate|]. intros H. rewrite (H m) in Hm; [discriminate|].
      left.
    + rewrite IH. split.
      * intros H n Hn. apply elem_of_cons in Hn as [->|Hn]; [exact Hm|].
        now apply H.
      * intros H n Hn. apply H. now right.
Qed.

(** X19.  A jump point is a heading or a landmark: [jumpPredicate_] finds
    nothing exactly when [headingPredicate_] and [landmarkPredicate_]
    both find nothing.  A heading of a given level is a heading: whenever
    a heading-level predicate finds a node, [headingPredicate_] finds one
    too (the first heading of the array, where the level predicate
    returns the last heading of its level). *)
Theorem jump_points_are_headings_and_landmarks
    (isLandmark : Node -> bool) (nodes : list Node) :
  (jumpPredicate_ isLandmark nodes = None
   <-> headingPredicate_ nodes = None
       /\ landmarkPredicate_ isLandmark nodes = None)
  /\ (forall level : list Node -> option Node,
        level ∈ [heading1Predicate_; heading2Predicate_; heading3Predicate_;
                 heading4Predicate_; heading5Predicate_; heading6Predicate_] ->
        is_Some (level nodes) ->
        is_Some (headingPredicate_ nodes)
        /\ is_Some (jumpPredicate_ isLandmark nodes)).
Proof.
  unfold jumpPredicate_, headingPredicate_, landmarkPredicate_.
  assert (Hjump : forall n, isJump isLandmark n = isLandmark n || isHeading n).
  { intros n. unfold isJump, isHeading.
    now rewrite !orb_assoc. }
  split.
  - rewrite !scanForward_none. split.
    + intros H. split; intros n Hn; specialize (H n Hn); rewrite Hjump in H;
        now apply orb_false_elim in H as [? ?].
    + intros [Hh Hl] n Hn. rewrite Hjump, (Hh n Hn), (Hl n Hn). reflexivity.
  - intros level Hlevel Hsome.
    assert (Hheading : exists n, n ∈ nodes /\ isHeading n = true).
    { repeat (apply elem_of_cons in Hlevel as [->|Hlevel];
              [match goal with
               | H : is_Some (?f nodes) |- _ =>
                   unfold f in H;
                   pose proof (containsTagName_last nodes) as Hlast
               end;
               match type of Hsome with
               | is_Some (containsTagName_ nodes ?t) =>
                   specialize (Hlast t); unfold lastMatching in Hlast;
                   destruct (containsTagName_ nodes t) as [r|];
                   [|now destruct Hsome];
                   destruct Hlast as (i & Hi & Hr & _);
                   exists r; split;
                   [eapply list_elem_of_lookup_2, Hi|];
                   unfold isHeading; rewrite Hr;
                   now rewrite ?orb_true_r
               end|]).
      now apply elem_of_nil in Hlevel. }
    destruct Hheading as (n & Hn & Hh).
    split.
    + destruct (scanForward isHeading nodes) eqn:E; [eauto|].
      rewrite scanForward_none in E. rewrite (E n Hn) in Hh. discriminate.
    + destruct (scanForward (isJump isLandmark) nodes) eqn:E; [eauto|].
      rewrite scanForward_none in E. specialize (E n Hn).
      rewrite Hjump, Hh, orb_true_r in E. discriminate.
Qed.

Lemma jump_points_are_headings_and_landmarks_witness :
  is_Some (headingPredicate_ sampleDelta)
  /\ is_Some (jumpPredicate_ (fun _ => false) sampleDelta).
Proof.
  apply (proj2 (jump_points_are_headings_and_landmarks (fun _ => false)
                  sampleDelta) heading1Predicate_).
  - apply list_elem_of_here.
  - vm_compute. eauto.
Defined.

(** X20.  What counts as a form field.  Every node that is a checkbox, a
    radio button, a slider, a button or a combo box for its own predicate
    is also a form field, so a search for form fields finds something
    whenever one of those searches does.  A text area without a role is
    editable text but not a form field. *)
Theorem form_fields_cover_controls_but_not_textareas
    (isInputTypeText : Node -> bool) :
  (forall n : Node,
      isCheckbox n || isRadio n || isSlider n || isButton n || isComboBox n
      = true ->
      isFormField n = true)
  /\ (forall (nodes : list Node) (category : list Node -> option Node),
        category ∈ [checkboxPredicate_; radioPredicate_; sliderPredicate_;
                    buttonPredicate_; comboBoxPredicate_] ->
        is_Some (category nodes) -> is_Some (formFieldPredicate_ nodes))
  /\ (forall n : Node,
        tagName n = Some "TEXTAREA" ->
        getAttribute n "role" = None ->
        isEditText isInputTypeText n = true /\ isFormField n = false).
Proof.
  assert (Hcover : forall n : Node,
             isCheckbox n || isRadio n || isSlider n || isButton n
             || isComboBox n = true -> isFormField n = true).
  { intros n. unfold isCheckbox, isRadio, isSlider, isButton, isComboBox,
      isFormField, roleIs, tagIs.
    destruct (hasGetAttribute n); simpl;
      repeat match goal with
             | |- context [jsEq ?x ?s] => destruct (jsEq x s); simpl
             end; try reflexivity; try discriminate; auto. }
  split; [exact Hcover|]. split.
  - intros nodes category Hcat Hsome.
    assert (Hnode : exists n, n ∈ nodes /\ isFormField n = true).
    { repeat (apply elem_of_cons in Hcat as [->|Hcat];
              [match type of Hsome with
               | is_Some (?f nodes) => unfold f in Hsome
               end;
               match type of Hsome with
               | is_Some (scanForward ?test nodes) =>
                   pose proof (scanForward_first test nodes) as Hfirst;
                   destruct (scanForward test nodes) as [r|];
                   [|now destruct Hsome];
                   destruct Hfirst as (i & Hi & Hr & _);
                   exists r; split; [eapply list_elem_of_lookup_2, Hi|];
                   apply Hcover; rewrite Hr; now rewrite ?orb_true_r
               end|]).
      now apply elem_of_nil in Hcat. }
    destruct Hnode as (n & Hn & Hf). unfold formFieldPredicate_.
    destruct (scanForward isFormField nodes) eqn:E; [eauto|].
    rewrite scanForward_none in E. rewrite (E n Hn) in Hf. discriminate.
  - intros n Htag Hrole. unfold isEditText, isFormField, roleIs, tagIs, jsEq.
    rewrite Htag, Hrole. destruct (hasGetAttribute n); split; reflexivity.
Qed.

Lemma form_fields_cover_controls_but_not_textareas_witness :
  isFormField (UserCommands.element "SELECT" []) = true
  /\ isFormField (UserCommands.element "TEXTAREA" []) = false.
Proof.
  split.
  - apply (proj1 (form_fields_cover_controls_but_not_textareas (fun _ => false))).
    reflexivity.
  - apply (proj2 (proj2 (form_fields_cover_controls_but_not_textareas
                           (fun _ => false))) (UserCommands.element "TEXTAREA" []));
      reflexivity.
Defined.
